(** * MaTiSSe box environments: [matisse/theme/box.py]

    A shallow embedding of the [Box] class and of the [parse] function of
    [box.py], together with the fragments of Python's [re] module and of
    the [yattag] document builder that the module calls.

    Conventions.
    - A Python [str] is a list of characters; a character is an 8-bit code
      point (the Latin-1 part of Python 3's [str]).
    - A value that is [None] or a [str] is an [option str]; truthiness is
      [truthy].
    - A call that may raise returns a [result]. *)

From Stdlib Require Import String Ascii List ZArith Lia Bool Arith.
From Stdlib Require Import DecimalString DecimalPos DecimalZ.
Import ListNotations.

Set Implicit Arguments.

(* ================================================================== *)
(** ** Python values *)

Definition str := list ascii.

(** A string literal of the source. *)
Definition py (s : string) : str := list_ascii_of_string s.

Inductive exn : Type :=
| AttributeError
| TypeError
| UnboundLocalError
| IndexError
| DocumentRootError
| re_error.

Inductive result (A : Type) : Type :=
| Ok (a : A)
| Raise (e : exn).
Arguments Ok {A} a.
Arguments Raise {A} e.

Definition bind {A B} (x : result A) (f : A -> result B) : result B :=
  match x with
  | Ok a => f a
  | Raise e => Raise e
  end.

Notation "x <- e1 ;; e2" := (bind e1 (fun x => e2))
  (at level 61, e1 at next level, right associativity).

Definition is_ok {A} (x : result A) : bool :=
  match x with Ok _ => true | Raise _ => false end.

(** [if v:] for [v] a [str] or [None]. *)
Definition truthy (v : option str) : bool :=
  match v with
  | Some (_ :: _) => true
  | _ => false
  end.

Definition str_eqb (a b : str) : bool :=
  if list_eq_dec ascii_dec a b then true else false.

(** *** [str] methods *)

(** [c.isspace()] for a code point below 256. *)
Definition isspace (c : ascii) : bool :=
  let n := nat_of_ascii c in
  ((9 <=? n) && (n <=? 13)) || ((28 <=? n) && (n <=? 32))
  || (n =? 133) || (n =? 160).

Fixpoint lstrip (s : str) : str :=
  match s with
  | c :: t => if isspace c then lstrip t else s
  | [] => []
  end.

Definition rstrip (s : str) : str := rev (lstrip (rev s)).

(** [s.strip()] *)
Definition strip (s : str) : str := rstrip (lstrip s).

(** [c.lower()] for a code point below 256. *)
Definition lower_char (c : ascii) : ascii :=
  let n := nat_of_ascii c in
  if ((65 <=? n) && (n <=? 90))
     || ((192 <=? n) && (n <=? 222) && negb (n =? 215))
  then ascii_of_nat (n + 32) else c.

(** [s.lower()] *)
Definition lower (s : str) : str := map lower_char s.

(** A method call on a value that may be [None]. *)
Definition method {A} (f : str -> A) (v : option str) : result A :=
  match v with
  | Some s => Ok (f s)
  | None => Raise AttributeError
  end.

(** [str(n)] for an [int]. *)
Definition str_of_int (n : Z) : str := py (NilZero.string_of_int (Z.to_int n)).

(** [s.replace(c, w)] for a one-character [c]. *)
Definition replace (c : ascii) (w : str) (s : str) : str :=
  flat_map (fun x => if Ascii.eqb x c then w else [x]) s.

(** [s] without its prefix [w], when [s] starts with [w]. *)
Fixpoint strip_prefix (w s : str) : option str :=
  match w with
  | [] => Some s
  | a :: w' =>
      match s with
      | x :: t => if Ascii.eqb a x then strip_prefix w' t else None
      | [] => None
      end
  end.

(** [s.startswith(w)] *)
Definition startswith (w s : str) : bool :=
  match strip_prefix w s with Some _ => true | None => false end.

(** [w in s] *)
Fixpoint contains (w s : str) : bool :=
  startswith w s || match s with [] => false | _ :: t => contains w t end.

(* ================================================================== *)
(** ** The [re] module

    A backtracking matcher with the priorities of Python's engine: the
    alternatives of a repetition are tried in order (greedy: one more
    iteration first; lazy: the continuation first) and the first
    complete match wins.  A group keeps the text of its last iteration.
    All patterns of [box.py] are compiled with [re.DOTALL], so [Any]
    matches every character, and none of their repeated sub-patterns
    matches the empty string. *)

Module re.

Inductive regex : Type :=
| Str (w : str)                                   (* literal text *)
| Any                                             (* [.] *)
| Seq (r1 r2 : regex)
| Star (r : regex)                                (* [r*] *)
| LazyStar (r : regex)                            (* [r*?] *)
| Group (i : nat) (name : option string) (r : regex).

(** Captured groups, the most recent first. *)
Definition caps := list (nat * str).

Fixpoint lookup (i : nat) (c : caps) : option str :=
  match c with
  | [] => None
  | (j, v) :: t => if Nat.eqb i j then Some v else lookup i t
  end.

Section Matcher.
Variable R : Type.

Definition cont := str -> caps -> option R.
Definition matcher := str -> caps -> cont -> option R.

Definition orelse (a : option R) (b : unit -> option R) : option R :=
  match a with
  | Some x => Some x
  | None => b tt
  end.

(** One more iteration must consume input. *)
Definition progress (s : str) (loop : str -> caps -> option R) : cont :=
  fun s' c' => if length s' <? length s then loop s' c' else None.

Fixpoint repeat_greedy (step : matcher) (fuel : nat) (k : cont)
    (s : str) (c : caps) : option R :=
  match fuel with
  | 0 => k s c
  | S f =>
      orelse (step s c (progress s (repeat_greedy step f k)))
             (fun _ => k s c)
  end.

Fixpoint repeat_lazy (step : matcher) (fuel : nat) (k : cont)
    (s : str) (c : caps) : option R :=
  match fuel with
  | 0 => k s c
  | S f =>
      orelse (k s c)
             (fun _ => step s c (progress s (repeat_lazy step f k)))
  end.

Fixpoint rmatch (r : regex) (s : str) (c : caps) (k : cont) : option R :=
  match r with
  | Str w =>
      match strip_prefix w s with
      | Some s' => k s' c
      | None => None
      end
  | Any =>
      match s with
      | _ :: t => k t c
      | [] => None
      end
  | Seq r1 r2 => rmatch r1 s c (fun s' c' => rmatch r2 s' c' k)
  | Star r1 => repeat_greedy (rmatch r1) (length s) k s c
  | LazyStar r1 => repeat_lazy (rmatch r1) (length s) k s c
  | Group i _ r1 =>
      rmatch r1 s c
        (fun s' c' => k s' ((i, firstn (length s - length s') s) :: c'))
  end.
End Matcher.

(** The names and the number of the groups of a pattern. *)
Fixpoint groupindex (r : regex) : list (string * nat) :=
  match r with
  | Str _ | Any => []
  | Seq r1 r2 => groupindex r1 ++ groupindex r2
  | Star r1 | LazyStar r1 => groupindex r1
  | Group i (Some n) r1 => (n, i) :: groupindex r1
  | Group _ None r1 => groupindex r1
  end.

Fixpoint groups (r : regex) : nat :=
  match r with
  | Str _ | Any => 0
  | Seq r1 r2 => groups r1 + groups r2
  | Star r1 | LazyStar r1 => groups r1
  | Group _ _ r1 => S (groups r1)
  end.

Fixpoint index_of (name : string) (l : list (string * nat)) : option nat :=
  match l with
  | [] => None
  | (n, i) :: t => if String.eqb name n then Some i else index_of name t
  end.

(** A match object. *)
Record Match : Type := {
  m_re : regex;
  m_string : str;
  m_start : nat;
  m_end : nat;
  m_caps : caps
}.

(** [match.group(name)] *)
Definition group (m : Match) (name : string) : result (option str) :=
  match index_of name (groupindex (m_re m)) with
  | Some i => Ok (lookup i (m_caps m))
  | None => Raise IndexError
  end.

(** [match.group(0)] *)
Definition group0 (m : Match) : str :=
  firstn (m_end m - m_start m) (skipn (m_start m) (m_string m)).

(** The pattern anchored at the head of [s]: the rest and the groups. *)
Definition match_here (r : regex) (s : str) : option (str * caps) :=
  rmatch r s [] (fun s' c' => Some (s', c')).

(** The leftmost match in [s], which is the text of [whole] from [pos]. *)
Fixpoint search_from (r : regex) (whole : str) (pos : nat) (s : str)
  : option Match :=
  match match_here r s with
  | Some (s', c) =>
      Some {| m_re := r; m_string := whole; m_start := pos;
              m_end := pos + (length s - length s'); m_caps := c |}
  | None =>
      match s with
      | [] => None
      | _ :: t => search_from r whole (S pos) t
      end
  end.

(** [re.search(r, s)] *)
Definition search (r : regex) (s : str) : option Match :=
  search_from r s 0 s.

(** [re.finditer(r, s)]: the non-overlapping matches, left to right.
    [skip] characters belong to the match just found.  (After an empty
    match the scan moves on by one character; the pattern iterated in
    [box.py] has no empty match.) *)
Fixpoint finditer_from (r : regex) (whole : str) (pos skip : nat) (s : str)
  : list Match :=
  match skip with
  | S n =>
      match s with
      | [] => []
      | _ :: t => finditer_from r whole (S pos) n t
      end
  | 0 =>
      match match_here r s with
      | Some (s', c) =>
          let m := {| m_re := r; m_string := whole; m_start := pos;
                      m_end := pos + (length s - length s'); m_caps := c |} in
          m :: match s with
               | [] => []
               | _ :: t =>
                   finditer_from r whole (S pos)
                                 (length s - length s' - 1) t
               end
      | None =>
          match s with
          | [] => []
          | _ :: t => finditer_from r whole (S pos) 0 t
          end
      end
  end.

Definition finditer (r : regex) (s : str) : list Match :=
  finditer_from r s 0 0 s.

(** *** Replacement templates

    [re.sub] reads its replacement as a template: a backslash starts a
    group reference ([\1], [\g<name>]), an octal code or a character
    escape; a backslash before any other ASCII letter, or at the end, is
    an error.  The template is compiled before the search. *)

Inductive titem : Type :=
| TLit (c : ascii)
| TGroup (i : nat).

Definition in_range (lo hi : nat) (c : ascii) : bool :=
  (lo <=? nat_of_ascii c) && (nat_of_ascii c <=? hi).

Definition is_digit : ascii -> bool := in_range 48 57.
Definition is_octdigit : ascii -> bool := in_range 48 55.
Definition is_ascii_letter (c : ascii) : bool :=
  in_range 65 90 c || in_range 97 122 c.
Definition is_name_start (c : ascii) : bool :=
  is_ascii_letter c || (nat_of_ascii c =? 95).

Definition digit_val (c : ascii) : nat := nat_of_ascii c - 48.

Definition int_of_digits (base : nat) (ds : str) : nat :=
  fold_left (fun acc d => base * acc + digit_val d) ds 0.

Definition isidentifier (n : str) : bool :=
  match n with
  | [] => false
  | c :: t =>
      is_name_start c && forallb (fun x => is_name_start x || is_digit x) t
  end.

(** The group a [\g<name>] refers to. *)
Definition resolve_name (r : regex) (n : str) : result titem :=
  match n with
  | [] => Raise re_error
  | _ =>
      if forallb is_digit n then
        let i := int_of_digits 10 n in
        if groups r <? i then Raise re_error else Ok (TGroup i)
      else if isidentifier n then
        match index_of (string_of_list_ascii n) (groupindex r) with
        | Some i => Ok (TGroup i)
        | None => Raise IndexError
        end
      else Raise re_error
  end.

(** The character escapes of a template. *)
Definition escape_char (c : ascii) : option ascii :=
  match c with
  | "a" => Some (ascii_of_nat 7)
  | "b" => Some (ascii_of_nat 8)
  | "f" => Some (ascii_of_nat 12)
  | "n" => Some (ascii_of_nat 10)
  | "r" => Some (ascii_of_nat 13)
  | "t" => Some (ascii_of_nat 9)
  | "v" => Some (ascii_of_nat 11)
  | "\" => Some "\"
  | _ => None
  end%char.

Definition group_ref (r : regex) (i : nat) : result titem :=
  if groups r <? i then Raise re_error else Ok (TGroup i).

Definition cons_item (x : result titem) (rest : result (list titem))
  : result (list titem) :=
  i <- x ;; l <- rest ;; Ok (i :: l).

(** [name] is [Some acc] inside the name of a [\g<...>], with [acc] the
    characters read so far, last first. *)
Fixpoint parse_template (r : regex) (name : option str) (t : str)
  : result (list titem) :=
  match name with
  | Some acc =>
      match t with
      | [] => Raise re_error
      | c :: rest =>
          if Ascii.eqb c ">" then
            cons_item (resolve_name r (rev acc)) (parse_template r None rest)
          else if Ascii.eqb c "\" then Raise re_error
          else parse_template r (Some (c :: acc)) rest
      end
  | None =>
      match t with
      | [] => Ok []
      | c :: rest =>
          if negb (Ascii.eqb c "\") then
            cons_item (Ok (TLit c)) (parse_template r None rest)
          else
            match rest with
            | [] => Raise re_error
            | e :: rest1 =>
                if Ascii.eqb e "g" then
                  match rest1 with
                  | lt :: rest2 =>
                      if Ascii.eqb lt "<" then parse_template r (Some []) rest2
                      else Raise re_error
                  | [] => Raise re_error
                  end
                else if Ascii.eqb e "0" then
                  match rest1 with
                  | d1 :: rest2 =>
                      if is_octdigit d1 then
                        match rest2 with
                        | d2 :: rest3 =>
                            if is_octdigit d2 then
                              cons_item
                                (Ok (TLit (ascii_of_nat
                                             (int_of_digits 8 [d1; d2]))))
                                (parse_template r None rest3)
                            else
                              cons_item
                                (Ok (TLit (ascii_of_nat (digit_val d1))))
                                (parse_template r None rest2)
                        | [] => Ok [TLit (ascii_of_nat (digit_val d1))]
                        end
                      else
                        cons_item (Ok (TLit zero))
                                  (parse_template r None rest1)
                  | [] => Ok [TLit zero]
                  end
                else if is_digit e then
                  match rest1 with
                  | d1 :: rest2 =>
                      if is_digit d1 then
                        match rest2 with
                        | d2 :: rest3 =>
                            if is_octdigit e && is_octdigit d1
                               && is_octdigit d2 then
                              let v := int_of_digits 8 [e; d1; d2] in
                              if 255 <? v then Raise re_error
                              else cons_item (Ok (TLit (ascii_of_nat v)))
                                             (parse_template r None rest3)
                            else
                              cons_item
                                (group_ref r (int_of_digits 10 [e; d1]))
                                (parse_template r None rest2)
                        | [] => cons_item
                                  (group_ref r (int_of_digits 10 [e; d1]))
                                  (Ok [])
                        end
                      else
                        cons_item (group_ref r (digit_val e))
                                  (parse_template r None rest1)
                  | [] => cons_item (group_ref r (digit_val e)) (Ok [])
                  end
                else
                  match escape_char e with
                  | Some x =>
                      cons_item (Ok (TLit x)) (parse_template r None rest1)
                  | None =>
                      if is_ascii_letter e then Raise re_error
                      else
                        l <- parse_template r None rest1 ;;
                        Ok (TLit c :: TLit e :: l)
                  end
            end
      end
  end.

(** The text a template item stands for in a match; a group that took no
    part gives the empty string. *)
Definition expand_item (m : Match) (it : titem) : str :=
  match it with
  | TLit c => [c]
  | TGroup 0 => group0 m
  | TGroup i =>
      match lookup i (m_caps m) with
      | Some v => v
      | None => []
      end
  end.

Definition expand (m : Match) (tpl : list titem) : str :=
  flat_map (expand_item m) tpl.

(** [re.sub(r, repl, s, 1)]: the first match only. *)
Definition sub1 (r : regex) (repl : str) (s : str) : result str :=
  tpl <- parse_template r None repl ;;
  match search r s with
  | None => Ok s
  | Some m => Ok (firstn (m_start m) s ++ expand m tpl ++ skipn (m_end m) s)
  end.

End re.

(* ================================================================== *)
(** ** The [yattag] document builder

    [Doc] collects the pieces of the output in [doc_result]; a tag
    reserves the place of its start tag when it is entered and fills it
    when it is left, so that attributes set inside the [with] block end
    up in the start tag.  Attributes are an insertion-ordered [dict]. *)

Module yattag.

Definition attrs := list (str * str).

Fixpoint update1 (k v : str) (d : attrs) : attrs :=
  match d with
  | [] => [(k, v)]
  | (k', v') :: t =>
      if str_eqb k k' then (k, v) :: t else (k', v') :: update1 k v t
  end.

(** [d.update(new)] *)
Definition update (d new : attrs) : attrs :=
  fold_left (fun acc kv => update1 (fst kv) (snd kv) acc) new d.

(** Keyword arguments to attributes: [klass] stands for [class]. *)
Definition attributes (kwargs : attrs) : attrs :=
  update []
    (map (fun kv => if str_eqb (fst kv) (py "klass")
                    then (py "class", snd kv) else kv) kwargs).

Record Tag : Type := {
  name : str;
  tag_attrs : attrs;
  position : nat
}.

(** [current_tag] lists the open tags, the innermost first; the empty
    list is the document root. *)
Record Doc : Type := {
  doc_result : list str;
  current_tag : list Tag
}.

(** [Doc()] *)
Definition new_doc : Doc := {| doc_result := []; current_tag := [] |}.

Definition M (A : Type) : Type := Doc -> result (A * Doc).

Definition ret {A} (a : A) : M A := fun d => Ok (a, d).

Definition bindM {A B} (x : M A) (f : A -> M B) : M B :=
  fun d =>
    match x d with
    | Ok (a, d') => f a d'
    | Raise e => Raise e
    end.

Definition lift {A} (x : result A) : M A :=
  fun d => match x with Ok a => Ok (a, d) | Raise e => Raise e end.

Definition when (b : bool) (x : M unit) : M unit :=
  if b then x else ret tt.

(** Escaping of a text node and of an attribute value.  A text node
    takes a string (or a number); [None] is refused with [TypeError]. *)
Definition html_escape (v : option str) : result str :=
  match v with
  | Some s =>
      Ok (replace ">" (py "&gt;")
            (replace "<" (py "&lt;") (replace "&" (py "&amp;") s)))
  | None => Raise TypeError
  end.

Definition dquote : ascii := ascii_of_nat 34.

Definition attr_escape (s : str) : str :=
  replace dquote (py "&quot;")
    (replace "<" (py "&lt;") (replace "&" (py "&amp;") s)).

Definition join (sep : str) (l : list str) : str :=
  match l with
  | [] => []
  | x :: t => x ++ flat_map (fun y => sep ++ y) t
  end.

Definition dict_to_attrs (d : attrs) : str :=
  join (py " ")
       (map (fun kv =>
               fst kv ++ py "=" ++ [dquote] ++ attr_escape (snd kv) ++ [dquote])
            d).

Definition start_tag (t : Tag) : str :=
  match tag_attrs t with
  | [] => py "<" ++ name t ++ py ">"
  | _ => py "<" ++ name t ++ py " " ++ dict_to_attrs (tag_attrs t) ++ py ">"
  end.

Definition end_tag (t : Tag) : str := py "</" ++ name t ++ py ">".

Fixpoint set_nth {A} (n : nat) (x : A) (l : list A) : list A :=
  match l, n with
  | [], _ => []
  | _ :: t, 0 => x :: t
  | y :: t, S n' => y :: set_nth n' x t
  end.

(** [with doc.tag(name, k=v, ...): body] *)
Definition with_tag (nm : str) (kwargs : attrs) (body : M unit) : M unit :=
  fun d =>
    let t := {| name := nm; tag_attrs := attributes kwargs;
                position := length (doc_result d) |} in
    match body {| doc_result := doc_result d ++ [[]];
                  current_tag := t :: current_tag d |} with
    | Raise e => Raise e
    | Ok (_, d') =>
        let t' := hd t (current_tag d') in
        Ok (tt, {| doc_result :=
                     set_nth (position t') (start_tag t') (doc_result d')
                     ++ [end_tag t'];
                   current_tag := current_tag d |})
    end.

(** [doc.attr(k=v, ...)] *)
Definition attr (kwargs : attrs) : M unit :=
  fun d =>
    match current_tag d with
    | [] => Raise DocumentRootError
    | t :: parents =>
        Ok (tt, {| doc_result := doc_result d;
                   current_tag :=
                     {| name := name t;
                        tag_attrs := update (tag_attrs t) (attributes kwargs);
                        position := position t |} :: parents |})
    end.

(** [doc.text(v)] *)
Definition text (v : option str) : M unit :=
  fun d =>
    match html_escape v with
    | Ok s => Ok (tt, {| doc_result := doc_result d ++ [s];
                         current_tag := current_tag d |})
    | Raise e => Raise e
    end.

(** [doc.getvalue()] *)
Definition getvalue (d : Doc) : str := concat (doc_result d).

End yattag.

Notation "x <~ e1 ;; e2" := (yattag.bindM e1 (fun x => e2))
  (at level 61, e1 at next level, right associativity).
Notation "e1 ;;; e2" := (yattag.bindM e1 (fun _ => e2))
  (at level 61, right associativity).

(* ================================================================== *)
(** ** [box.py] *)

(** [__rebox__ = re.compile(r"\$box(?P<box>.*?)\$endbox", re.DOTALL)] *)
Definition __rebox__ : re.regex :=
  re.Seq (re.Str (py "$box"))
    (re.Seq (re.Group 1 (Some "box"%string) (re.LazyStar re.Any))
            (re.Str (py "$endbox"))).

(** [__restl__ = re.compile(r"\$style\[(?P<style>.*?)\]", re.DOTALL)] *)
Definition __restl__ : re.regex :=
  re.Seq (re.Str (py "$style["))
    (re.Seq (re.Group 1 (Some "style"%string) (re.LazyStar re.Any))
            (re.Str (py "]"))).

(** A qualifier [<open>(?P<name>.*?)<close>] in an unnamed group [i]. *)
Definition qualifier (i : nat) (open : string) (nm : string) (close : string)
  : re.regex :=
  re.Group i None
    (re.Seq (re.Str (py open))
       (re.Seq (re.Group (S i) (Some nm) (re.LazyStar re.Any))
               (re.Str (py close)))).

(** [__rectn__ = re.compile(r"\$content(\((?P<ctn_type>.*?)\))*
    (\[(?P<ctn_options>.*?)\])*\{(?P<ctn>.*?)\}", re.DOTALL)] *)
Definition __rectn__ : re.regex :=
  re.Seq (re.Str (py "$content"))
    (re.Seq (re.Star (qualifier 1 "(" "ctn_type" ")"))
       (re.Seq (re.Star (qualifier 3 "[" "ctn_options" "]"))
          (re.Seq (re.Str (py "{"))
             (re.Seq (re.Group 5 (Some "ctn"%string) (re.LazyStar re.Any))
                     (re.Str (py "}")))))).

(** [__recap__ = re.compile(r"\$caption(\((?P<cap_type>.*?)\))*
    (\[(?P<cap_options>.*?)\])*(\{(?P<cap>.*?)\})*", re.DOTALL)] *)
Definition __recap__ : re.regex :=
  re.Seq (re.Str (py "$caption"))
    (re.Seq (re.Star (qualifier 1 "(" "cap_type" ")"))
       (re.Seq (re.Star (qualifier 3 "[" "cap_options" "]"))
               (re.Star (qualifier 5 "{" "cap" "}")))).

(** [__cap_type__] *)
Definition __cap_type__ : list (str * str) :=
  [(py "figure", py "Figure"); (py "table", py "Table");
   (py "note", py "Note"); (py "box", [])].

Record Box : Type := {
  number : Z;
  ctn_type : str;
  style : option str;
  ctn_options : option str;
  cap_options : option str;
  cap_type : option str;
  ctn : option str;
  cap : option str
}.

(** [Box.__init__(self, ctn_type='box')] *)
Definition Box_init (ctn_type : str) : Box :=
  {| number := 0; ctn_type := ctn_type; style := None; ctn_options := None;
     cap_options := None; cap_type := None; ctn := None; cap := None |}.

Definition set_ctn_type (b : Box) (v : str) : Box :=
  {| number := number b; ctn_type := v; style := style b;
     ctn_options := ctn_options b; cap_options := cap_options b;
     cap_type := cap_type b; ctn := ctn b; cap := cap b |}.
Definition set_style (b : Box) (v : option str) : Box :=
  {| number := number b; ctn_type := ctn_type b; style := v;
     ctn_options := ctn_options b; cap_options := cap_options b;
     cap_type := cap_type b; ctn := ctn b; cap := cap b |}.
Definition set_ctn_options (b : Box) (v : option str) : Box :=
  {| number := number b; ctn_type := ctn_type b; style := style b;
     ctn_options := v; cap_options := cap_options b;
     cap_type := cap_type b; ctn := ctn b; cap := cap b |}.
Definition set_cap_options (b : Box) (v : option str) : Box :=
  {| number := number b; ctn_type := ctn_type b; style := style b;
     ctn_options := ctn_options b; cap_options := v;
     cap_type := cap_type b; ctn := ctn b; cap := cap b |}.
Definition set_cap_type (b : Box) (v : option str) : Box :=
  {| number := number b; ctn_type := ctn_type b; style := style b;
     ctn_options := ctn_options b; cap_options := cap_options b;
     cap_type := v; ctn := ctn b; cap := cap b |}.
Definition set_ctn (b : Box) (v : option str) : Box :=
  {| number := number b; ctn_type := ctn_type b; style := style b;
     ctn_options := ctn_options b; cap_options := cap_options b;
     cap_type := cap_type b; ctn := v; cap := cap b |}.
Definition set_cap (b : Box) (v : option str) : Box :=
  {| number := number b; ctn_type := ctn_type b; style := style b;
     ctn_options := ctn_options b; cap_options := cap_options b;
     cap_type := cap_type b; ctn := ctn b; cap := v |}.

(** A value used where a [str] is required. *)
Definition as_str (v : option str) : result str :=
  match v with
  | Some s => Ok s
  | None => Raise TypeError
  end.

(** [Box.__get_style] *)
Definition __get_style (self : Box) (source : str) : result Box :=
  match re.search __restl__ source with
  | Some m =>
      style <- re.group m "style" ;;
      if truthy style then
        s <- method strip style ;; Ok (set_style self (Some s))
      else Ok self
  | None => Ok self
  end.

(** [Box.__get_caption] *)
Definition __get_caption (self : Box) (source : str) : result Box :=
  match re.search __recap__ source with
  | Some m =>
      cap_type <- re.group m "cap_type" ;;
      self <- (if truthy cap_type then
                 l <- method lower cap_type ;;
                 if str_eqb l (py "none") then Ok (set_cap_type self None)
                 else s <- method strip cap_type ;;
                      Ok (set_cap_type self (Some s))
               else Ok self) ;;
      cap_options <- re.group m "cap_options" ;;
      self <- (if truthy cap_options then
                 s <- method strip cap_options ;;
                 Ok (set_cap_options self (Some s))
               else Ok self) ;;
      c <- re.group m "cap" ;;
      let self := set_cap self c in
      if truthy (cap self) then
        s <- method strip (cap self) ;; Ok (set_cap self (Some s))
      else Ok self
  | None => Ok self
  end.

(** [Box.__get_content] *)
Definition __get_content (self : Box) (source : str) : result Box :=
  match re.search __rectn__ source with
  | Some m =>
      ctn_type <- re.group m "ctn_type" ;;
      self <- (if truthy ctn_type then
                 s <- method strip ctn_type ;; Ok (set_ctn_type self s)
               else Ok self) ;;
      ctn_options <- re.group m "ctn_options" ;;
      self <- (if truthy ctn_options then
                 s <- method strip ctn_options ;;
                 Ok (set_ctn_options self (Some s))
               else Ok self) ;;
      c <- re.group m "ctn" ;;
      let self := set_ctn self c in
      if truthy (ctn self) then
        s <- method strip (ctn self) ;; Ok (set_ctn self (Some s))
      else Ok self
  | None => Ok self
  end.

(** [Box.get] *)
Definition get (self : Box) (source : str) : result Box :=
  self <- __get_style self source ;;
  self <- __get_caption self source ;;
  __get_content self source.

(** [Box.caption_txt]: [txt] is bound in none of the branches when
    neither [cap_type] nor [cap] is truthy. *)
Definition caption_txt (self : Box) : result str :=
  if truthy (cap_type self) && truthy (cap self) then
    t <- as_str (cap_type self) ;;
    c <- as_str (cap self) ;;
    Ok (t ++ py " " ++ str_of_int (number self) ++ py ": " ++ c)
  else if truthy (cap_type self) then as_str (cap_type self)
  else if truthy (cap self) then as_str (cap self)
  else Raise UnboundLocalError.

(** [Box.put_caption] *)
Definition put_caption (self : Box) : yattag.M unit :=
  if truthy (cap self) || truthy (cap_type self) then
    yattag.with_tag (py "div") [(py "klass", py "box caption")]
      (yattag.when (truthy (cap_options self))
         (o <~ yattag.lift (as_str (cap_options self)) ;;
          yattag.attr [(py "style", o)]) ;;;
       txt <~ yattag.lift (caption_txt self) ;;
       yattag.text (Some txt))
  else yattag.ret tt.

(** [Box.to_html] *)
Definition to_html (self : Box) : result str :=
  match
    yattag.with_tag (py "div") [(py "markdown", py "1"); (py "klass", py "box")]
      (yattag.when (truthy (style self))
         (o <~ yattag.lift (as_str (style self)) ;;
          yattag.attr [(py "style", o)]) ;;;
       yattag.with_tag (py "div") [(py "klass", py "box content")]
         (yattag.when (truthy (ctn_options self))
            (o <~ yattag.lift (as_str (ctn_options self)) ;;
             yattag.attr [(py "style", o)]) ;;;
          yattag.text (ctn self)) ;;;
       put_caption self)
      yattag.new_doc
  with
  | Ok (_, doc) => Ok (yattag.getvalue doc)
  | Raise e => Raise e
  end.

(** One turn of the loop of [parse]. *)
Definition parse_step (parsed_source : str) (m : re.Match) : result str :=
  let box := Box_init (py "box") in
  g <- re.group m "box" ;;
  source <- as_str g ;;
  box <- get box source ;;
  html <- to_html box ;;
  re.sub1 __rebox__ html parsed_source.

(** [parse]: the matches are those of the source as it was given. *)
Definition parse (source : str) : result str :=
  fold_left (fun acc m => parsed_source <- acc ;; parse_step parsed_source m)
            (re.finditer __rebox__ source) (Ok source).

(* ================================================================== *)
(** ** [slide/header.py]

    [Header] extends [ThemeElement], which is not part of the sources at
    hand: the two methods of its [data] attribute that [Header] calls are
    fields of the record. *)

Module header.

(** The newline of the string literals. *)
Definition nl : ascii := ascii_of_nat 10.

Record Header : Type := {
  number : Z;
  data_get_css : bool -> str;       (* [self.data.get_css(only_custom=b)] *)
  data_get_options : str            (* [self.data.get_options()] *)
}.

(** The arguments that [Header.__init__] passes to [ThemeElement]. *)
Definition data_tag (number : Z) : str :=
  py "theme_slide_header_" ++ str_of_int number.

Definition class_name (number : Z) : str :=
  py "slide-header_" ++ str_of_int number.

(** [Header.get_options] *)
Definition get_options (self : Header) : str :=
  nl :: nl :: py "Slide Header" ++ data_get_options self.

(** [Header.get_css]: a string, or a list of one string. *)
Definition get_css (self : Header) (only_custom as_list : bool)
  : str + list str :=
  let css := nl :: py ".slide-header_" ++ str_of_int (number self)
             ++ py " {" ++ nl :: py "  padding:0;" in
  let css := css ++ data_get_css self only_custom in
  let css := css ++ nl :: py "}" ++ [nl] in
  if as_list then inr [css] else inl css.

End header.

(* ================================================================== *)
(** ** Notions used in the statements *)

Unset Implicit Arguments.

(** The start tag of the caption element of [b]. *)
Definition caption_tag (b : Box) (pos : nat) : yattag.Tag :=
  {| yattag.name := py "div";
     yattag.tag_attrs :=
       (py "class", py "box caption")
       :: (if truthy (cap_options b)
           then match cap_options b with
                | Some o => [(py "style", o)]
                | None => []
                end
           else []);
     yattag.position := pos |}.

(** A continuation is only ever called on a suffix of the input:
    [reaches k s x] says that [k] gives [x] on some suffix of [s]. *)
Definition reaches {R : Type} (k : re.cont R) (s : str) (x : R) : Prop :=
  exists pre s' c', s = pre ++ s' /\ k s' c' = Some x.

Definition sound_step {R : Type} (step : re.matcher R) : Prop :=
  forall s c k x, step s c k = Some x -> reaches k s x.

(** What a parser stores for a captured group: the trimmed text when the
    group is truthy. *)
Definition stripped (v : option str) : option str :=
  if truthy v then option_map strip v else v.

Definition style_of (self : Box) (c : re.caps) : Box :=
  if truthy (re.lookup 1 c)
  then set_style self (stripped (re.lookup 1 c)) else self.

Definition caption_of (self : Box) (c : re.caps) : Box :=
  let self1 :=
    match re.lookup 2 c with
    | Some (x :: t) =>
        if str_eqb (lower (x :: t)) (py "none") then set_cap_type self None
        else set_cap_type self (Some (strip (x :: t)))
    | _ => self
    end in
  let self2 :=
    if truthy (re.lookup 4 c)
    then set_cap_options self1 (stripped (re.lookup 4 c)) else self1 in
  set_cap self2 (stripped (re.lookup 6 c)).

Definition content_of (self : Box) (c : re.caps) : Box :=
  let self1 :=
    match re.lookup 2 c with
    | Some (x :: t) => set_ctn_type self (strip (x :: t))
    | _ => self
    end in
  let self2 :=
    if truthy (re.lookup 4 c)
    then set_ctn_options self1 (stripped (re.lookup 4 c)) else self1 in
  set_ctn self2 (stripped (re.lookup 5 c)).

Definition after (r : re.regex) (source : str) (f : Box -> re.caps -> Box)
    (self : Box) : Box :=
  match re.search r source with
  | Some m => f self (re.m_caps m)
  | None => self
  end.

(** [r] fails at every position inside [a], in front of [u]. *)
Definition fails_in (r : re.regex) (a u : str) : Prop :=
  forall p1 y p2, a = p1 ++ y :: p2 ->
                  re.match_here r (y :: p2 ++ u) = None.

(** The fragment that replaces a match. *)
Definition render_match (m : re.Match) : result str :=
  g <- re.group m "box" ;;
  source <- as_str g ;;
  box <- get (Box_init (py "box")) source ;;
  to_html box.

(** The fragment of [m] is rendered and holds neither [$] nor a
    backslash. *)
Definition fragment_clean (m : re.Match) : bool :=
  match render_match m with
  | Ok html =>
      negb (existsb (fun c => Ascii.eqb c "$" || Ascii.eqb c "\") html)
  | Raise _ => false
  end.

(** No position of [d] starts a match, whatever follows [d]. *)
Definition settled (d : str) : Prop :=
  forall ext, fails_in __rebox__ d ext.

(** Markup written with single quotes for the double quotes of the
    output. *)
Definition dq (s : str) : str :=
  map (fun c => if Ascii.eqb c "'" then yattag.dquote else c) s.

Definition sample_box : str :=
  py "$box$caption(figure)[color:red;]{A sample}$content{Body text}$endbox".

Definition two_figures : str :=
  py "$box$caption(figure){First}$content(figure){A}$endbox and $box$caption(figure){Second}$content(figure){B}$endbox".

(** The text of an optional qualifier: nothing, or [v] between [o] and
    [c]. *)
Definition qual (o : ascii) (v : option str) (c : ascii) : str :=
  match v with
  | Some t => o :: t ++ [c]
  | None => []
  end.

(** The groups that the qualifier of group [i] leaves. *)
Definition qual_caps (i : nat) (o : ascii) (v : option str) (c : ascii)
  : re.caps :=
  match v with
  | Some t => [(i, o :: t ++ [c]); (S i, t)]
  | None => []
  end.

(** [c] does not occur in the text [v], if there is one. *)
Definition free_of (c : ascii) (v : option str) : Prop :=
  match v with
  | Some t => ~ In c t
  | None => True
  end.

(** [s] starts with the opening character of a qualifier. *)
Definition opens (s : str) : bool :=
  match s with
  | c :: _ => Ascii.eqb c "(" || Ascii.eqb c "[" || Ascii.eqb c "{"
  | [] => false
  end.

(** What an [if v: field = v.strip()] leaves in [field], which held
    [old]. *)
Definition assigned (v : option str) (old : option str) : option str :=
  match v with
  | Some (x :: t) => Some (strip (x :: t))
  | _ => old
  end.

(** The [style] attribute that a truthy options field gives. *)
Definition style_attr (v : option str) : yattag.attrs :=
  match v with
  | Some (x :: t) => [(py "style", x :: t)]
  | _ => []
  end.

(** A [div] element with the attributes [a] around [inner]. *)
Definition element (a : yattag.attrs) (inner : str) : str :=
  yattag.start_tag {| yattag.name := py "div"; yattag.tag_attrs := a;
                      yattag.position := 0 |}
  ++ inner ++ py "</div>".

(** The text of a text node. *)
Definition escape_text (s : str) : str :=
  replace ">" (py "&gt;") (replace "<" (py "&lt;") (replace "&" (py "&amp;") s)).

(** The caption element of a box, or nothing. *)
Definition caption_element (b : Box) : str :=
  if truthy (cap b) || truthy (cap_type b) then
    match caption_txt b with
    | Ok txt =>
        element ((py "class", py "box caption") :: style_attr (cap_options b))
                (escape_text txt)
    | Raise _ => []
    end
  else [].

(** The fragment of a box with the body [body]. *)
Definition render_body (body : str) : result str :=
  b <- get (Box_init (py "box")) body ;; to_html b.

(** The body is rendered, and its fragment holds neither [$] nor a
    backslash. *)
Definition clean_body (body : str) : bool :=
  match render_body body with
  | Ok html =>
      negb (existsb (fun c => Ascii.eqb c "$" || Ascii.eqb c "\") html)
  | Raise _ => false
  end.

(** A document: texts and box bodies in turn, then a last text. *)
Definition boxes_doc (segs : list (str * str)) (post : str) : str :=
  flat_map (fun sb => fst sb ++ py "$box" ++ snd sb ++ py "$endbox") segs
  ++ post.

(** The same document with every box replaced by its fragment. *)
Definition rendered_doc (segs : list (str * str)) (post : str) : str :=
  flat_map (fun sb => fst sb ++ match render_body (snd sb) with
                                | Ok html => html
                                | Raise _ => []
                                end) segs
  ++ post.

(** The text in front of a box holds no earlier [$box], the body no
    earlier [$endbox], and the fragment is clean. *)
Definition plain_segment (sb : str * str) : bool :=
  negb (contains (py "$box") (fst sb ++ py "$bo"))
  && negb (contains (py "$endbox") (snd sb ++ py "$endbo"))
  && clean_body (snd sb).

(** The text of repeated qualifiers, and the groups they leave (the
    last one first). *)
Definition quals (o : ascii) (vs : list str) (c : ascii) : str :=
  flat_map (fun t => o :: t ++ [c]) vs.

Definition quals_caps (i : nat) (o : ascii) (vs : list str) (c : ascii)
  : re.caps :=
  flat_map (fun t => [(i, o :: t ++ [c]); (S i, t)]) (rev vs).

(** A step gives the same result on continuations that agree. *)
Definition ext_step {R : Type} (step : re.matcher R) : Prop :=
  forall s c k1 k2,
    (forall s' c', k1 s' c' = k2 s' c') -> step s c k1 = step s c k2.

(** The characters of a number written out. *)
Definition sign_or_digit (c : ascii) : bool :=
  Ascii.eqb c "-" || re.is_digit c.

(* ================================================================== *)
(** * Properties *)

(** ** Rendering the caption *)

Lemma set_nth_length A (l r : list A) (x y : A) :
  yattag.set_nth (length l) x (l ++ y :: r) = l ++ x :: r.
Proof. induction l; simpl; congruence. Qed.

Lemma truthy_as_str (v : option str) :
  truthy v = true -> exists c t, v = Some (c :: t) /\ as_str v = Ok (c :: t).
Proof. destruct v as [[|c t]|]; simpl; try discriminate; eauto. Qed.

Lemma caption_txt_ok (b : Box) :
  truthy (cap b) || truthy (cap_type b) = true ->
  exists txt, caption_txt b = Ok txt.
Proof.
  unfold caption_txt.
  destruct (cap_type b) as [[|c1 t1]|], (cap b) as [[|c2 t2]|];
    simpl; try discriminate; eauto.
Qed.

Lemma put_caption_emits (b : Box) (d : yattag.Doc) (txt : str) :
  truthy (cap b) || truthy (cap_type b) = true ->
  caption_txt b = Ok txt ->
  exists e,
    yattag.html_escape (Some txt) = Ok e /\
    put_caption b d =
    Ok (tt, {| yattag.doc_result :=
                 yattag.doc_result d
                 ++ [yattag.start_tag
                       (caption_tag b (length (yattag.doc_result d)));
                     e; py "</div>"];
               yattag.current_tag := yattag.current_tag d |}).
Proof.
  intros Hg Ht. eexists. split; [reflexivity|].
  unfold put_caption. rewrite Hg.
  unfold yattag.with_tag, yattag.bindM, yattag.when, caption_tag.
  destruct (truthy (cap_options b)) eqn:Ho.
  - destruct (truthy_as_str _ Ho) as (c & t & Hv & Hs).
    rewrite Hv in *. simpl as_str. unfold yattag.lift at 1. cbv beta iota.
    unfold yattag.attr. cbn [yattag.current_tag yattag.doc_result].
    rewrite Ht. unfold yattag.lift, yattag.text. simpl yattag.html_escape.
    cbv beta iota. cbn [yattag.current_tag yattag.doc_result hd yattag.position yattag.name].
    rewrite <- !app_assoc. simpl app at 2. rewrite set_nth_length.
    rewrite <- !app_assoc. reflexivity.
  - unfold yattag.ret. rewrite Ht. unfold yattag.lift, yattag.text.
    simpl yattag.html_escape. cbv beta iota.
    cbn [yattag.current_tag yattag.doc_result hd yattag.position yattag.name].
    rewrite <- !app_assoc. simpl app at 2. rewrite set_nth_length.
    rewrite <- !app_assoc. reflexivity.
Qed.

Lemma put_caption_silent (b : Box) (d : yattag.Doc) :
  truthy (cap b) || truthy (cap_type b) = false ->
  put_caption b d = Ok (tt, d).
Proof. intros Hg. unfold put_caption. rewrite Hg. reflexivity. Qed.

Lemma put_caption_total (b : Box) (d : yattag.Doc) :
  exists extra,
    put_caption b d =
    Ok (tt, {| yattag.doc_result := yattag.doc_result d ++ extra;
               yattag.current_tag := yattag.current_tag d |}).
Proof.
  destruct (truthy (cap b) || truthy (cap_type b)) eqn:Hg.
  - destruct (caption_txt_ok b Hg) as [txt Ht].
    destruct (put_caption_emits b d txt Hg Ht) as (e & _ & He).
    eexists. exact He.
  - exists []. rewrite (put_caption_silent b d Hg), app_nil_r.
    destruct d; reflexivity.
Qed.

Lemma to_html_None (b : Box) : ctn b = None -> to_html b = Raise TypeError.
Proof.
  intros Hc. unfold to_html, yattag.with_tag, yattag.bindM, yattag.when.
  rewrite Hc.
  destruct (truthy (style b)) eqn:Hs;
    [destruct (truthy_as_str _ Hs) as (c & t & Hv & He); rewrite Hv|];
    (destruct (truthy (ctn_options b)) eqn:Ho;
     [destruct (truthy_as_str _ Ho) as (c' & t' & Hv' & He'); rewrite Hv'|]);
    reflexivity.
Qed.

Lemma to_html_Some (b : Box) (x : str) :
  ctn b = Some x -> exists h, to_html b = Ok h.
Proof.
  intros Hc. unfold to_html, yattag.with_tag, yattag.bindM, yattag.when.
  rewrite Hc.
  destruct (truthy (style b)) eqn:Hs;
    [destruct (truthy_as_str _ Hs) as (c & t & Hv & He); rewrite Hv|];
    (destruct (truthy (ctn_options b)) eqn:Ho;
     [destruct (truthy_as_str _ Ho) as (c' & t' & Hv' & He'); rewrite Hv'|]);
    cbn [as_str yattag.lift yattag.attr yattag.ret yattag.text
         yattag.html_escape yattag.current_tag yattag.doc_result
         yattag.new_doc hd];
    match goal with
    | |- context [put_caption b ?d] =>
        destruct (put_caption_total b d) as [extra ->]
    end; eexists; reflexivity.
Qed.

(** ** Facts about the matcher *)

Lemma strip_prefix_Some (w s s' : str) :
  strip_prefix w s = Some s' <-> s = w ++ s'.
Proof.
  revert s. induction w as [|a w IH]; intros s; simpl.
  - split; congruence.
  - destruct s as [|x t]; [split; discriminate|].
    destruct (Ascii.eqb_spec a x) as [->|Hne].
    + rewrite IH. split; congruence.
    + split; [discriminate|]. intros H; injection H; congruence.
Qed.

Lemma strip_prefix_app (w s : str) : strip_prefix w (w ++ s) = Some s.
Proof. now apply strip_prefix_Some. Qed.

Section MatcherFacts.
Variable R : Type.
Implicit Types (k : re.cont R) (s : str) (c : re.caps).

Lemma reaches_here k s c x : k s c = Some x -> reaches k s x.
Proof. intros H. exists [], s, c. auto. Qed.

Lemma reaches_app k pre s x : reaches k s x -> reaches k (pre ++ s) x.
Proof.
  intros (p & s' & c' & -> & H). exists (pre ++ p), s', c'.
  now rewrite app_assoc.
Qed.

Lemma repeat_greedy_reaches step fuel k s c x :
  sound_step step ->
  re.repeat_greedy step fuel k s c = Some x -> reaches k s x.
Proof.
  intros Hstep. revert s c.
  induction fuel as [|f IH]; intros s c; simpl.
  - apply reaches_here.
  - unfold re.orelse.
    destruct (step s c _) as [y|] eqn:E.
    + intros [= ->]. apply Hstep in E.
      destruct E as (p & s' & c' & -> & H). unfold re.progress in H.
      destruct (_ <? _); [|discriminate].
      apply reaches_app. eapply IH; eauto.
    + apply reaches_here.
Qed.

Lemma repeat_lazy_reaches step fuel k s c x :
  sound_step step ->
  re.repeat_lazy step fuel k s c = Some x -> reaches k s x.
Proof.
  intros Hstep. revert s c.
  induction fuel as [|f IH]; intros s c; simpl.
  - apply reaches_here.
  - unfold re.orelse.
    destruct (k s c) as [y|] eqn:E.
    + intros [= ->]. eapply reaches_here; eauto.
    + intros H. apply Hstep in H.
      destruct H as (p & s' & c' & -> & H). unfold re.progress in H.
      destruct (_ <? _); [|discriminate].
      apply reaches_app. eapply IH; eauto.
Qed.

Lemma rmatch_reaches r : sound_step (re.rmatch (R:=R) r).
Proof.
  induction r as [w| |r1 IH1 r2 IH2|r1 IH1|r1 IH1|i n r1 IH1];
    intros s c k x; simpl.
  - destruct (strip_prefix w s) as [s'|] eqn:E; [|discriminate].
    apply strip_prefix_Some in E. intros H. exists w, s', c. auto.
  - destruct s as [|a t]; [discriminate|].
    intros H. exists [a], t, c. auto.
  - intros H. apply IH1 in H. destruct H as (p & s' & c' & -> & H).
    apply reaches_app. eapply IH2; eauto.
  - now apply repeat_greedy_reaches.
  - now apply repeat_lazy_reaches.
  - intros H. apply IH1 in H. destruct H as (p & s' & c' & -> & H).
    exists p, s'. eauto.
Qed.
End MatcherFacts.

(** A match of [r1 r2] runs [r2] on a suffix of the input. *)
Lemma rmatch_Seq_reaches R r1 r2 s c (k : re.cont R) x :
  re.rmatch (re.Seq r1 r2) s c k = Some x ->
  exists pre s' c', s = pre ++ s' /\ re.rmatch r2 s' c' k = Some x.
Proof. simpl. intros H. now apply rmatch_reaches in H. Qed.

Lemma search_from_re r w p s m :
  re.search_from r w p s = Some m -> re.m_re m = r.
Proof.
  revert p. induction s as [|a t IH]; intros p; simpl;
    destruct (re.match_here r _) as [[s' c]|]; try discriminate;
    try (intros [= <-]; reflexivity).
  apply IH.
Qed.

Lemma search_re r s m : re.search r s = Some m -> re.m_re m = r.
Proof. apply search_from_re. Qed.

(** No match anywhere when the pattern fails on every suffix. *)
Lemma search_from_None r w p s :
  (forall pre t, s = pre ++ t -> re.match_here r t = None) ->
  re.search_from r w p s = None.
Proof.
  revert p. induction s as [|a t IH]; intros p H; simpl.
  - now rewrite (H [] []).
  - rewrite (H [] (a :: t) eq_refl). apply IH.
    intros pre u ->. apply (H (a :: pre) u). reflexivity.
Qed.

Lemma finditer_from_nil r w p s :
  (forall pre t, s = pre ++ t -> re.match_here r t = None) ->
  re.finditer_from r w p 0 s = [].
Proof.
  revert p. induction s as [|a t IH]; intros p H; simpl.
  - now rewrite (H [] []).
  - rewrite (H [] (a :: t) eq_refl). apply IH.
    intros pre u ->. apply (H (a :: pre) u). reflexivity.
Qed.

(** A match of [__rectn__] ends with a closing brace. *)
Lemma rectn_needs_brace s :
  re.match_here __rectn__ s <> None -> In "}"%char s.
Proof.
  unfold re.match_here, __rectn__. intros H.
  destruct (re.rmatch _ _ _ _) as [x|] eqn:E; [clear H|congruence].
  do 5 (apply rmatch_Seq_reaches in E;
        destruct E as (? & ? & ? & -> & E); apply in_or_app; right).
  cbn [re.rmatch] in E.
  destruct (strip_prefix _ _) as [u|] eqn:P; [|discriminate].
  apply strip_prefix_Some in P. subst. now left.
Qed.

Lemma rectn_unterminated s :
  ~ In "}"%char s -> re.search __rectn__ s = None.
Proof.
  intros H. apply search_from_None. intros pre t -> .
  destruct (re.match_here __rectn__ t) eqn:E; [|reflexivity].
  exfalso. apply H, in_or_app. right. apply rectn_needs_brace. congruence.
Qed.

(** ** Closed forms of the field parsers *)

Lemma group_eq r s m n i :
  re.search r s = Some m ->
  re.index_of n (re.groupindex r) = Some i ->
  re.group m n = Ok (re.lookup i (re.m_caps m)).
Proof.
  intros E H. unfold re.group. now rewrite (search_re _ _ _ E), H.
Qed.

Lemma get_style_eq self source :
  __get_style self source = Ok (after __restl__ source style_of self).
Proof.
  unfold __get_style, after, style_of, stripped.
  destruct (re.search __restl__ source) as [m|] eqn:E; [|reflexivity].
  rewrite (group_eq _ _ _ "style" 1 E eq_refl). cbn [bind].
  destruct (re.lookup 1 (re.m_caps m)) as [[|x t]|]; reflexivity.
Qed.

Lemma get_caption_eq self source :
  __get_caption self source = Ok (after __recap__ source caption_of self).
Proof.
  unfold __get_caption, after, caption_of, stripped.
  destruct (re.search __recap__ source) as [m|] eqn:E; [|reflexivity].
  rewrite (group_eq _ _ _ "cap_type" 2 E eq_refl),
    (group_eq _ _ _ "cap_options" 4 E eq_refl),
    (group_eq _ _ _ "cap" 6 E eq_refl). cbn [bind].
  destruct (re.lookup 2 (re.m_caps m)) as [[|x t]|];
    cbn [truthy method bind];
    try destruct (str_eqb _ _);
    destruct (re.lookup 4 (re.m_caps m)) as [[|x' t']|];
    cbn [truthy method bind];
    destruct (re.lookup 6 (re.m_caps m)) as [[|x'' t'']|];
    reflexivity.
Qed.

Lemma get_content_eq self source :
  __get_content self source = Ok (after __rectn__ source content_of self).
Proof.
  unfold __get_content, after, content_of, stripped.
  destruct (re.search __rectn__ source) as [m|] eqn:E; [|reflexivity].
  rewrite (group_eq _ _ _ "ctn_type" 2 E eq_refl),
    (group_eq _ _ _ "ctn_options" 4 E eq_refl),
    (group_eq _ _ _ "ctn" 5 E eq_refl). cbn [bind].
  destruct (re.lookup 2 (re.m_caps m)) as [[|x t]|];
    cbn [truthy method bind];
    destruct (re.lookup 4 (re.m_caps m)) as [[|x' t']|];
    cbn [truthy method bind];
    destruct (re.lookup 5 (re.m_caps m)) as [[|x'' t'']|];
    reflexivity.
Qed.

Lemma get_eq self source :
  get self source =
  Ok (after __rectn__ source content_of
        (after __recap__ source caption_of
           (after __restl__ source style_of self))).
Proof.
  unfold get. rewrite get_style_eq. cbn [bind].
  rewrite get_caption_eq. cbn [bind]. apply get_content_eq.
Qed.

(** Each parser leaves the fields of the others alone. *)
Lemma style_of_fields self c :
  number (style_of self c) = number self /\
  ctn_type (style_of self c) = ctn_type self /\
  ctn_options (style_of self c) = ctn_options self /\
  cap_options (style_of self c) = cap_options self /\
  cap_type (style_of self c) = cap_type self /\
  ctn (style_of self c) = ctn self /\
  cap (style_of self c) = cap self.
Proof. unfold style_of. destruct (truthy _); repeat split. Qed.

Lemma caption_of_fields self c :
  number (caption_of self c) = number self /\
  ctn_type (caption_of self c) = ctn_type self /\
  style (caption_of self c) = style self /\
  ctn_options (caption_of self c) = ctn_options self /\
  ctn (caption_of self c) = ctn self.
Proof.
  unfold caption_of.
  destruct (re.lookup 2 c) as [[|x t]|]; try destruct (str_eqb _ _);
    destruct (truthy (re.lookup 4 c)); repeat split.
Qed.

Lemma content_of_fields self c :
  number (content_of self c) = number self /\
  style (content_of self c) = style self /\
  cap_options (content_of self c) = cap_options self /\
  cap_type (content_of self c) = cap_type self /\
  cap (content_of self c) = cap self.
Proof.
  unfold content_of.
  destruct (re.lookup 2 c) as [[|x t]|];
    destruct (truthy (re.lookup 4 c)); repeat split.
Qed.

Lemma after_fields {A} (proj : Box -> A) r source f self :
  (forall b c, proj (f b c) = proj b) ->
  proj (after r source f self) = proj self.
Proof. intros H. unfold after. destruct (re.search r source); auto. Qed.

Lemma after_None r source f self :
  re.search r source = None -> after r source f self = self.
Proof. intros H. unfold after. now rewrite H. Qed.

(** ** Running the matcher on text of a known shape *)

Section Scan.
Variable R : Type.
Implicit Types (k : re.cont R) (s : str) (c : re.caps).

Lemma repeat_lazy_hit step fuel k s c x :
  k s c = Some x -> re.repeat_lazy step fuel k s c = Some x.
Proof. intros H. destruct fuel; simpl; [|unfold re.orelse]; now rewrite H. Qed.

(** [.*?] steps over [pre] when the continuation fails inside it. *)
Lemma lazy_any_scan k pre s c fuel :
  length (pre ++ s) <= fuel ->
  (forall p1 y p2, pre = p1 ++ y :: p2 -> k (y :: p2 ++ s) c = None) ->
  re.repeat_lazy (re.rmatch (R:=R) re.Any) fuel k (pre ++ s) c =
  re.repeat_lazy (re.rmatch (R:=R) re.Any) (fuel - length pre) k s c.
Proof.
  revert fuel. induction pre as [|a p IH]; intros fuel Hf Hk.
  - simpl. now rewrite Nat.sub_0_r.
  - destruct fuel as [|f]; [simpl in Hf; lia|].
    cbn [re.repeat_lazy app]. unfold re.orelse.
    rewrite (Hk [] a p eq_refl).
    cbn [re.rmatch]. unfold re.progress.
    replace (length (p ++ s) <? length (a :: p ++ s)) with true
      by (symmetry; apply Nat.ltb_lt; simpl; lia).
    rewrite IH.
    + reflexivity.
    + simpl in Hf. lia.
    + intros p1 y p2 ->. apply (Hk (a :: p1) y p2). reflexivity.
Qed.

Lemma lazy_any_first k pre s c x :
  (forall p1 y p2, pre = p1 ++ y :: p2 -> k (y :: p2 ++ s) c = None) ->
  k s c = Some x ->
  re.rmatch (re.LazyStar re.Any) (pre ++ s) c k = Some x.
Proof.
  intros Hk Hx. cbn [re.rmatch].
  rewrite lazy_any_scan by (auto; lia). now apply repeat_lazy_hit.
Qed.

(** [(?P<n>.*?)w] in front of [pre ++ w ++ rest], when [w] does not
    occur earlier: the group is [pre]. *)
Lemma lazy_until i n w pre rest c k x :
  (forall p1 y p2, pre = p1 ++ y :: p2 ->
                   strip_prefix w (y :: p2 ++ w ++ rest) = None) ->
  k rest ((i, pre) :: c) = Some x ->
  re.rmatch (re.Seq (re.Group i n (re.LazyStar re.Any)) (re.Str w))
            (pre ++ w ++ rest) c k = Some x.
Proof.
  intros Hw Hx. cbn [re.rmatch].
  change (re.repeat_lazy _ _ ?K _ _)
    with (re.rmatch (re.LazyStar re.Any) (pre ++ w ++ rest) c K).
  apply lazy_any_first.
  - intros p1 y p2 E. now rewrite (Hw p1 y p2 E).
  - rewrite strip_prefix_app.
    replace (length (pre ++ w ++ rest) - length (w ++ rest))
      with (length pre + 0) by (rewrite !length_app; lia).
    now rewrite firstn_app_2, app_nil_r.
Qed.

(** A one-character terminator that does not occur in [pre]. *)
Lemma lazy_until_char i n a pre rest c k x :
  ~ In a pre ->
  k rest ((i, pre) :: c) = Some x ->
  re.rmatch (re.Seq (re.Group i n (re.LazyStar re.Any)) (re.Str [a]))
            (pre ++ a :: rest) c k = Some x.
Proof.
  intros Ha Hx. apply (lazy_until i n [a] pre rest); auto.
  intros p1 y p2 ->. simpl.
  destruct (Ascii.eqb_spec a y) as [->|]; [|reflexivity].
  exfalso. apply Ha, in_elt.
Qed.

(** A repetition whose body fails at once is left at once. *)
Lemma repeat_greedy_skip step fuel k s c :
  (forall K, step s c K = None) ->
  re.repeat_greedy step fuel k s c = k s c.
Proof.
  intros H. destruct fuel; simpl; [reflexivity|].
  unfold re.orelse. now rewrite H.
Qed.

Lemma qualifier_fails i a nm b s c (K : re.cont R) :
  strip_prefix (py a) s = None ->
  re.rmatch (qualifier i a nm b) s c K = None.
Proof. intros H. unfold qualifier. cbn [re.rmatch]. now rewrite H. Qed.

Lemma star_qualifier_skip i a nm b s c k :
  strip_prefix (py a) s = None ->
  re.rmatch (re.Star (qualifier i a nm b)) s c k = k s c.
Proof.
  intros H. cbn [re.rmatch]. apply repeat_greedy_skip.
  intros K. now apply qualifier_fails.
Qed.

Lemma Seq_Str_fails w r s c k :
  strip_prefix w s = None ->
  re.rmatch (re.Seq (re.Str w) r) s c k = None.
Proof. intros H. cbn [re.rmatch]. now rewrite H. Qed.
End Scan.

Lemma search_here r s s' c :
  re.match_here r s = Some (s', c) ->
  re.search r s =
  Some {| re.m_re := r; re.m_string := s; re.m_start := 0;
          re.m_end := 0 + (length s - length s'); re.m_caps := c |}.
Proof.
  intros H. unfold re.search. destruct s; simpl; now rewrite H.
Qed.

(** A pattern that starts with literal text matches nowhere in a text in
    which that literal does not occur. *)
Lemma search_literal_absent w r s :
  (forall pre t, s <> pre ++ w ++ t) ->
  re.search (re.Seq (re.Str w) r) s = None.
Proof.
  intros H. apply search_from_None. intros pre t ->.
  apply Seq_Str_fails.
  destruct (strip_prefix w t) as [u|] eqn:E; [|reflexivity].
  apply strip_prefix_Some in E. subst. now destruct (H pre u).
Qed.

(** The body [$content{X}] *)
Lemma only_content_no_dollar (X pre t w : str) :
  ~ In "$"%char X ->
  py "$content{" ++ X ++ py "}" = pre ++ "$"%char :: w ++ t ->
  pre = [] .
Proof.
  intros HX E. destruct pre as [|a pre]; [reflexivity|exfalso].
  injection E as _ E.
  assert (H : In "$"%char (pre ++ "$"%char :: w ++ t)) by apply in_elt.
  rewrite <- E in H. cbn [py list_ascii_of_string app In] in H.
  repeat (destruct H as [H|H]; [discriminate H|]).
  apply in_app_or in H. destruct H as [H|H]; [auto|].
  simpl in H. intuition discriminate.
Qed.

Lemma only_content_restl X :
  ~ In "$"%char X ->
  re.search __restl__ (py "$content{" ++ X ++ py "}") = None.
Proof.
  intros HX. apply search_literal_absent. intros pre t E.
  pose proof (only_content_no_dollar X pre t (py "style[") HX E) as ->.
  discriminate E.
Qed.

Lemma only_content_recap X :
  ~ In "$"%char X ->
  re.search __recap__ (py "$content{" ++ X ++ py "}") = None.
Proof.
  intros HX. apply search_literal_absent. intros pre t E.
  pose proof (only_content_no_dollar X pre t (py "caption") HX E) as ->.
  discriminate E.
Qed.

Lemma only_content_rectn X :
  ~ In "}"%char X ->
  re.match_here __rectn__ (py "$content{" ++ X ++ py "}") = Some ([], [(5, X)]).
Proof.
  intros HX. unfold re.match_here, __rectn__.
  cbn [re.rmatch].
  change (py "$content{" ++ X ++ py "}")
    with (py "$content" ++ "{"%char :: X ++ py "}").
  rewrite strip_prefix_app.
  change (re.repeat_greedy (re.rmatch (qualifier 1 ?a ?n ?b)) _ ?K ?s ?c)
    with (re.rmatch (re.Star (qualifier 1 a n b)) s c K).
  rewrite star_qualifier_skip by reflexivity.
  change (re.repeat_greedy (re.rmatch (qualifier 3 ?a ?n ?b)) _ ?K ?s ?c)
    with (re.rmatch (re.Star (qualifier 3 a n b)) s c K).
  rewrite star_qualifier_skip by reflexivity.
  change (strip_prefix (py "{") ("{"%char :: X ++ py "}"))
    with (Some (X ++ py "}")).
  cbv beta iota.
  change (re.rmatch (re.LazyStar re.Any) ?s ?c
            (fun s' c' => ?K s' (@?f s' c')))
    with (re.rmatch (re.LazyStar re.Any) s c (fun s' c' => K s' (f s' c'))).
  apply (lazy_until_char (str * re.caps) 5 (Some "ctn"%string) "}"%char X []
           [] (fun s' c' => Some (s', c'))); auto.
Qed.

Lemma firstn_consumed (p r : str) :
  firstn (length (p ++ r) - length r) (p ++ r) = p.
Proof.
  replace (length (p ++ r) - length r) with (length p + 0)
    by (rewrite length_app; lia).
  now rewrite firstn_app_2, app_nil_r.
Qed.

(** One qualifier [a T b] followed by text that does not open another
    one: the repetition takes it and goes on. *)
Lemma star_qualifier_once R i a nm b ca cb T rest c (k : re.cont R) x :
  py a = [ca] -> py b = [cb] ->
  ~ In cb T ->
  strip_prefix [ca] rest = None ->
  k rest ((i, ca :: T ++ [cb]) :: (S i, T) :: c) = Some x ->
  re.rmatch (re.Star (qualifier i a nm b)) (ca :: T ++ cb :: rest) c k
  = Some x.
Proof.
  intros Ha Hb HT Hrest Hk.
  cbn [re.rmatch length re.repeat_greedy]. unfold re.orelse.
  unfold qualifier at 1. rewrite Ha, Hb. cbn [re.rmatch].
  replace (strip_prefix [ca] (ca :: T ++ cb :: rest))
    with (Some (T ++ cb :: rest))
    by (symmetry; apply (strip_prefix_app [ca])).
  match goal with
  | |- match ?e with _ => _ end = _ =>
      assert (E : e = Some x); [|now rewrite E]
  end.
  enough (E : re.rmatch
                (re.Seq (re.Group (S i) (Some nm) (re.LazyStar re.Any))
                        (re.Str [cb]))
                (T ++ cb :: rest) c
                (fun s'' c'' =>
                   re.progress (ca :: T ++ cb :: rest)
                     (re.repeat_greedy (re.rmatch (qualifier i a nm b))
                        (length (T ++ cb :: rest)) k)
                     s''
                     ((i, firstn (length (ca :: T ++ cb :: rest) - length s'')
                            (ca :: T ++ cb :: rest)) :: c''))
              = Some x) by exact E.
  apply lazy_until_char; auto.
  unfold re.progress.
  replace (length rest <? length (ca :: T ++ cb :: rest)) with true
    by (symmetry; apply Nat.ltb_lt; simpl; rewrite length_app; simpl; lia).
  rewrite repeat_greedy_skip.
  - replace (ca :: T ++ cb :: rest) with ((ca :: T ++ [cb]) ++ rest)
      by (simpl; now rewrite <- app_assoc).
    now rewrite firstn_consumed.
  - intros K. apply qualifier_fails. now rewrite Ha.
Qed.

(** The end of [__rectn__] on [{X}]. *)
Lemma rectn_body X c :
  ~ In "}"%char X ->
  re.rmatch
    (re.Seq (re.Star (qualifier 3 "[" "ctn_options" "]"))
       (re.Seq (re.Str (py "{"))
          (re.Seq (re.Group 5 (Some "ctn"%string) (re.LazyStar re.Any))
                  (re.Str (py "}")))))
    ("{"%char :: X ++ py "}") c (fun s' c' => Some (s', c'))
  = Some ([], (5, X) :: c).
Proof.
  intros HX.
  change (re.rmatch (re.Seq ?r1 ?r2) ?s ?c0 ?k)
    with (re.rmatch r1 s c0 (fun s' c' => re.rmatch r2 s' c' k)).
  rewrite star_qualifier_skip by reflexivity.
  change (re.rmatch (re.Seq (re.Str (py "{")) ?r2) ("{"%char :: ?s) ?c0 ?k)
    with (re.rmatch r2 s c0 k).
  now apply (lazy_until_char (str * re.caps) 5 (Some "ctn"%string) "}"%char X []).
Qed.

Lemma typed_content_rectn T X :
  ~ In ")"%char T -> ~ In "}"%char X ->
  re.match_here __rectn__ (py "$content(" ++ T ++ py "){" ++ X ++ py "}")
  = Some ([], [(5, X); (1, "("%char :: T ++ py ")"); (2, T)]).
Proof.
  intros HT HX. unfold re.match_here, __rectn__.
  change (re.rmatch (re.Seq (re.Str (py "$content")) ?r2)
            (py "$content(" ++ ?s) ?c0 ?k)
    with (re.rmatch r2 ("("%char :: s) c0 k).
  change (re.rmatch (re.Seq ?r1 ?r2) ?s ?c0 ?k)
    with (re.rmatch r1 s c0 (fun s' c' => re.rmatch r2 s' c' k)).
  change (py "){" ++ X ++ py "}") with (")"%char :: "{"%char :: X ++ py "}").
  apply (star_qualifier_once _ 1 "(" "ctn_type" ")" "("%char ")"%char);
    auto.
  now apply rectn_body.
Qed.

Lemma contains_false w s :
  contains w s = false -> forall pre t, s <> pre ++ w ++ t.
Proof.
  induction s as [|a s IH]; simpl; intros H pre t E.
  - apply orb_false_elim in H. destruct H as [H _].
    unfold startswith in H. destruct pre; simpl in E.
    + now rewrite E, strip_prefix_app in H.
    + discriminate.
  - apply orb_false_elim in H. destruct H as [H1 H2].
    destruct pre as [|b pre]; simpl in E.
    + unfold startswith in H1. now rewrite E, strip_prefix_app in H1.
    + injection E as _ E. now apply (IH H2 pre t).
Qed.

(** ** The outer pattern *)

Section LazyAny.
Variable R : Type.
Implicit Types (k : re.cont R) (s : str) (c : re.caps).

(** [.*?] hands the continuation a suffix, with the groups as they were. *)
Lemma lazy_any_inv k fuel s c x :
  re.repeat_lazy (re.rmatch (R:=R) re.Any) fuel k s c = Some x ->
  exists pre s', s = pre ++ s' /\ k s' c = Some x.
Proof.
  revert s. induction fuel as [|f IH]; intros s; simpl.
  - intros H. exists [], s. auto.
  - unfold re.orelse. destruct (k s c) as [y|] eqn:E.
    + intros [= ->]. exists [], s. auto.
    + destruct s as [|a t]; [discriminate|].
      unfold re.progress. destruct (_ <? _); [|discriminate].
      intros H. destruct (IH _ H) as (pre & s' & -> & Hk).
      exists (a :: pre), s'. auto.
Qed.

(** [.*?] finds a suffix on which the continuation succeeds, if any. *)
Lemma lazy_any_complete k pre s c fuel :
  length (pre ++ s) <= fuel ->
  k s c <> None ->
  re.repeat_lazy (re.rmatch (R:=R) re.Any) fuel k (pre ++ s) c <> None.
Proof.
  revert fuel. induction pre as [|a p IH]; intros fuel Hf Hk.
  - destruct (k s c) as [x|] eqn:E; [|congruence].
    simpl. now rewrite (repeat_lazy_hit R _ fuel k s c x E).
  - destruct fuel as [|f]; [simpl in Hf; lia|].
    cbn [re.repeat_lazy app]. unfold re.orelse.
    destruct (k (a :: p ++ s) c); [discriminate|].
    cbn [re.rmatch]. unfold re.progress.
    replace (length (p ++ s) <? length (a :: p ++ s)) with true
      by (symmetry; apply Nat.ltb_lt; simpl; lia).
    apply IH; auto. simpl in Hf. lia.
Qed.
End LazyAny.

(** A match of [__rebox__] is [$box], a body, [$endbox]. *)
Lemma rebox_here_inv t rest c :
  re.match_here __rebox__ t = Some (rest, c) ->
  exists body,
    t = py "$box" ++ body ++ py "$endbox" ++ rest /\ c = [(1, body)].
Proof.
  unfold re.match_here, __rebox__. cbn [re.rmatch].
  destruct (strip_prefix (py "$box") t) as [t1|] eqn:E; [|discriminate].
  apply strip_prefix_Some in E. subst t. intros H.
  apply lazy_any_inv in H. destruct H as (body & s' & -> & H).
  destruct (strip_prefix (py "$endbox") s') as [u|] eqn:E; [|discriminate].
  apply strip_prefix_Some in E. subst s'. injection H as <- <-.
  exists body. split; [reflexivity|].
  now rewrite firstn_consumed.
Qed.

Lemma rebox_here_complete body rest :
  re.match_here __rebox__ (py "$box" ++ body ++ py "$endbox" ++ rest) <> None.
Proof.
  unfold re.match_here, __rebox__. cbn [re.rmatch].
  rewrite strip_prefix_app.
  apply lazy_any_complete; [lia|].
  now rewrite strip_prefix_app.
Qed.

Lemma rebox_here_needs_box t :
  startswith (py "$box") t = false -> re.match_here __rebox__ t = None.
Proof.
  unfold startswith. intros H. apply Seq_Str_fails.
  now destruct (strip_prefix _ _).
Qed.

(** ** Scanning *)

Section Scanning.
Variable r : re.regex.

Lemma fails_in_tail x a u : fails_in r (x :: a) u -> fails_in r a u.
Proof. intros H p1 y p2 ->. apply (H (x :: p1) y p2). reflexivity. Qed.

Lemma fails_in_app a1 a2 u :
  fails_in r a1 (a2 ++ u) -> fails_in r a2 u -> fails_in r (a1 ++ a2) u.
Proof.
  induction a1 as [|x a1 IH]; intros H1 H2; [exact H2|].
  intros p1 y p2 E. destruct p1 as [|z p1]; simpl in E.
  - injection E as <- <-. rewrite <- app_assoc. apply (H1 [] x a1 eq_refl).
  - injection E as <- E.
    apply (IH (fails_in_tail _ _ _ H1) H2 p1 y p2 E).
Qed.

Lemma first_match_dec t :
  (forall pre u, t = pre ++ u -> re.match_here r u = None)
  \/ (exists a u rest c,
         t = a ++ u /\ re.match_here r u = Some (rest, c) /\ fails_in r a u).
Proof.
  induction t as [|x t IH].
  - destruct (re.match_here r []) as [[rest c]|] eqn:E.
    + right. exists [], [], rest, c. repeat split; auto.
      intros [|] ? ? ?; discriminate.
    + left. intros pre u H. symmetry in H.
      apply app_eq_nil in H. destruct H as [_ ->]. exact E.
  - destruct (re.match_here r (x :: t)) as [[rest c]|] eqn:E.
    + right. exists [], (x :: t), rest, c. repeat split; auto.
      intros [|] ? ? ?; discriminate.
    + destruct IH as [IH|(a & u & rest & c & -> & Hm & Hf)].
      * left. intros [|z pre] u H; simpl in H.
        -- now subst u.
        -- injection H as _ H. now apply (IH pre u).
      * right. exists (x :: a), u, rest, c. repeat split; auto.
        intros [|z p1] y p2 H; simpl in H.
        -- injection H as <- <-. exact E.
        -- injection H as _ H. now apply (Hf p1 y p2).
Qed.

Lemma search_from_skip w p a u :
  fails_in r a u ->
  re.search_from r w p (a ++ u) = re.search_from r w (p + length a) u.
Proof.
  revert p. induction a as [|x a IH]; intros p H.
  - simpl. now rewrite Nat.add_0_r.
  - cbn [app re.search_from]. rewrite (H [] x a eq_refl).
    rewrite IH by (eapply fails_in_tail; eauto).
    f_equal. simpl. lia.
Qed.

Lemma finditer_from_skip w p a u :
  fails_in r a u ->
  re.finditer_from r w p 0 (a ++ u)
  = re.finditer_from r w (p + length a) 0 u.
Proof.
  revert p. induction a as [|x a IH]; intros p H.
  - simpl. now rewrite Nat.add_0_r.
  - cbn [app re.finditer_from]. rewrite (H [] x a eq_refl).
    rewrite IH by (eapply fails_in_tail; eauto).
    f_equal. simpl. lia.
Qed.

(** The characters of a match are skipped. *)
Lemma finditer_from_matched w p n m rest :
  length m = n ->
  re.finditer_from r w p n (m ++ rest)
  = re.finditer_from r w (p + n) 0 rest.
Proof.
  revert p m. induction n as [|n IH]; intros p m H.
  - destruct m; [|discriminate]. simpl. now rewrite Nat.add_0_r.
  - destruct m as [|x m]; [discriminate|]. injection H as H.
    cbn [app re.finditer_from]. rewrite IH by assumption.
    f_equal. lia.
Qed.

(** The scan takes the first match and goes on after it. *)
Lemma finditer_from_first w p a mt rest c :
  mt <> [] ->
  fails_in r a (mt ++ rest) ->
  re.match_here r (mt ++ rest) = Some (rest, c) ->
  exists mo p',
    re.m_re mo = r /\ re.m_caps mo = c /\
    re.finditer_from r w p 0 (a ++ mt ++ rest)
    = mo :: re.finditer_from r w p' 0 rest.
Proof.
  intros Hne Hf Hm. rewrite finditer_from_skip by assumption.
  destruct mt as [|x m]; [congruence|].
  cbn [app re.finditer_from] in Hm |- *. rewrite Hm.
  eexists. exists (S (p + length a) + length m).
  split; [|split]; [| |f_equal]; try reflexivity.
  replace (length (x :: m ++ rest) - length rest - 1) with (length m)
    by (change (length (x :: m ++ rest)) with (S (length (m ++ rest)));
        rewrite length_app; lia).
  now apply finditer_from_matched.
Qed.
End Scanning.

(** A rendered box starts with its opening tag. *)
Lemma to_html_starts (b : Box) (h : str) :
  to_html b = Ok h -> exists h', h = "<"%char :: h'.
Proof.
  unfold to_html, yattag.with_tag, yattag.bindM, yattag.when.
  destruct (ctn b) as [x|];
  destruct (truthy (style b)) eqn:Hs;
    [destruct (truthy_as_str _ Hs) as (c & t & Hv & He); rewrite Hv| |
     destruct (truthy_as_str _ Hs) as (c & t & Hv & He); rewrite Hv| ];
    (destruct (truthy (ctn_options b)) eqn:Ho;
     [destruct (truthy_as_str _ Ho) as (c' & t' & Hv' & He'); rewrite Hv'|]);
    cbn [as_str yattag.lift yattag.attr yattag.ret yattag.text
         yattag.html_escape yattag.current_tag yattag.doc_result
         yattag.new_doc hd];
    try discriminate;
    match goal with
    | |- context [put_caption b ?d] =>
        destruct (put_caption_total b d) as [extra ->]
    end; intros [= <-]; eexists; reflexivity.
Qed.

(** ** Replacement by a literal *)

Lemma parse_template_literal r html :
  ~ In "\"%char html ->
  re.parse_template r None html = Ok (map re.TLit html).
Proof.
  induction html as [|c t IH]; intros H; [reflexivity|].
  cbn [re.parse_template].
  destruct (Ascii.eqb_spec c "\"%char) as [->|_].
  - exfalso. apply H. now left.
  - cbn [negb]. rewrite IH by (intros ?; apply H; now right). reflexivity.
Qed.

Lemma expand_literal m html : re.expand m (map re.TLit html) = html.
Proof.
  unfold re.expand. induction html as [|c t IH]; simpl; congruence.
Qed.

Lemma match_here_rest r u rest c :
  re.match_here r u = Some (rest, c) -> exists mt, u = mt ++ rest.
Proof.
  unfold re.match_here. intros H. apply rmatch_reaches in H.
  destruct H as (pre & s' & c' & -> & [= -> ->]). now exists pre.
Qed.

Lemma sub1_first r html pre u rest c :
  ~ In "\"%char html ->
  fails_in r pre u ->
  re.match_here r u = Some (rest, c) ->
  re.sub1 r html (pre ++ u) = Ok (pre ++ html ++ rest).
Proof.
  intros Hb Hf Hm. unfold re.sub1.
  rewrite parse_template_literal by assumption. cbn [bind].
  unfold re.search. rewrite search_from_skip by assumption.
  destruct (match_here_rest _ _ _ _ Hm) as [mt ->].
  assert (E : re.search_from r (pre ++ mt ++ rest) (0 + length pre) (mt ++ rest)
              = Some {| re.m_re := r; re.m_string := pre ++ mt ++ rest;
                        re.m_start := 0 + length pre;
                        re.m_end := 0 + length pre
                                    + (length (mt ++ rest) - length rest);
                        re.m_caps := c |}).
  { destruct (mt ++ rest); simpl; now rewrite Hm. }
  rewrite E. cbn [re.m_start re.m_end].
  rewrite expand_literal. f_equal.
  replace (0 + length pre) with (length pre + 0) by lia.
  rewrite firstn_app_2. cbn [firstn]. rewrite app_nil_r. f_equal. f_equal.
  replace (length pre + 0 + (length (mt ++ rest) - length rest))
    with (length pre + length mt) by (rewrite length_app; lia).
  rewrite skipn_app, skipn_all2 by lia. 
  replace (length pre + length mt - length pre) with (length mt) by lia.
  simpl. rewrite skipn_app, skipn_all2 by lia.
  rewrite Nat.sub_diag. reflexivity.
Qed.

(** ** The loop of [parse] *)

Lemma parse_step_render w m :
  parse_step w m = (html <- render_match m ;; re.sub1 __rebox__ html w).
Proof.
  unfold parse_step, render_match.
  destruct (re.group m "box") as [g|]; [|reflexivity]. cbn [bind].
  destruct (as_str g) as [s|]; [|reflexivity]. cbn [bind].
  destruct (get _ s) as [b|]; reflexivity.
Qed.

Lemma fragment_clean_inv m :
  fragment_clean m = true ->
  exists h, render_match m = Ok ("<"%char :: h)
            /\ ~ In "$"%char ("<"%char :: h) /\ ~ In "\"%char ("<"%char :: h).
Proof.
  unfold fragment_clean.
  destruct (render_match m) as [html|] eqn:E; [|discriminate].
  intros H. apply negb_true_iff in H.
  assert (N : forall c, In c html ->
                        Ascii.eqb c "$" || Ascii.eqb c "\" = false).
  { intros c Hc. destruct (_ || _) eqn:F; [|reflexivity].
    assert (X : existsb (fun c => Ascii.eqb c "$" || Ascii.eqb c "\") html
                = true) by (apply existsb_exists; eauto).
    congruence. }
  assert (S : exists h, html = "<"%char :: h).
  { unfold render_match in E.
    destruct (re.group m "box") as [g|]; [|discriminate]. cbn [bind] in E.
    destruct (as_str g) as [s|]; [|discriminate]. cbn [bind] in E.
    destruct (get _ s) as [b|]; [|discriminate]. cbn [bind] in E.
    now apply to_html_starts in E. }
  destruct S as [h ->]. exists h. split; [reflexivity|].
  split; intros Hc; apply N in Hc; now rewrite Ascii.eqb_refl, ?orb_true_r in Hc.
Qed.

Lemma settled_nil : settled [].
Proof. intros ext [|] ? ? ?; discriminate. Qed.

Lemma no_dollar_fails html ext :
  ~ In "$"%char html -> fails_in __rebox__ html ext.
Proof.
  intros H p1 y p2 ->. apply rebox_here_needs_box.
  unfold startswith. change (py "$box") with ("$"%char :: py "box").
  cbn [strip_prefix].
  destruct (Ascii.eqb_spec "$"%char y) as [<-|]; [|reflexivity].
  exfalso. apply H, in_elt.
Qed.

(** The text in front of a match, followed by a fragment instead of the
    match, still starts no match. *)
Lemma replaced_fails a body rest h ext :
  fails_in __rebox__ a (py "$box" ++ body ++ py "$endbox" ++ rest) ->
  fails_in __rebox__ a (("<"%char :: h) ++ ext).
Proof.
  intros Hf p1 y p2 E.
  destruct (startswith (py "$box") (y :: p2 ++ ("<"%char :: h) ++ ext))
    eqn:S; [exfalso|now apply rebox_here_needs_box].
  unfold startswith in S.
  destruct (strip_prefix _ _) as [z|] eqn:P; [clear S|discriminate].
  apply strip_prefix_Some in P.
  destruct p2 as [|b1 [|b2 [|b3 p3]]]; try discriminate P.
  injection P as -> -> -> -> _.
  specialize (Hf p1 _ _ E).
  apply (rebox_here_complete (p3 ++ py "$box" ++ body) rest).
  rewrite <- Hf. f_equal. cbn [app py list_ascii_of_string].
  now rewrite <- !app_assoc.
Qed.

Lemma settled_step d a body rest h :
  settled d ->
  fails_in __rebox__ a (py "$box" ++ body ++ py "$endbox" ++ rest) ->
  ~ In "$"%char ("<"%char :: h) ->
  settled (d ++ a ++ "<"%char :: h).
Proof.
  intros Hd Ha Hh ext.
  apply fails_in_app; [rewrite <- app_assoc; apply Hd|].
  apply fails_in_app.
  - eapply replaced_fails; eauto.
  - now apply no_dollar_fails.
Qed.

Lemma settled_search d t :
  settled d ->
  (forall pre u, t = pre ++ u -> re.match_here __rebox__ u = None) ->
  re.search __rebox__ (d ++ t) = None.
Proof.
  intros Hd Ht. unfold re.search.
  rewrite search_from_skip by apply Hd.
  now apply search_from_None.
Qed.

Lemma parse_loop n :
  forall t w p d,
    length t <= n ->
    settled d ->
    forallb fragment_clean (re.finditer_from __rebox__ w p 0 t) = true ->
    exists out,
      fold_left (fun acc m => parsed_source <- acc ;; parse_step parsed_source m)
                (re.finditer_from __rebox__ w p 0 t) (Ok (d ++ t)) = Ok out
      /\ re.search __rebox__ out = None.
Proof.
  induction n as [|n IH]; intros t w p d Hn Hd Hc.
  - destruct t; [|simpl in Hn; lia].
    exists (d ++ []). split; [reflexivity|].
    apply settled_search; auto.
    intros pre u E. symmetry in E. apply app_eq_nil in E.
    destruct E as [_ ->]. reflexivity.
  - destruct (first_match_dec __rebox__ t)
      as [Hnone|(a & u & rest & c & -> & Hm & Hf)].
    + rewrite finditer_from_nil by assumption.
      exists (d ++ t). split; [reflexivity|]. now apply settled_search.
    + destruct (rebox_here_inv _ _ _ Hm) as (body & -> & ->).
      assert (E : py "$box" ++ body ++ py "$endbox" ++ rest
                  = (py "$box" ++ body ++ py "$endbox") ++ rest)
        by now rewrite <- !app_assoc.
      assert (Hit : exists mo p',
                 re.m_re mo = __rebox__ /\ re.m_caps mo = [(1, body)] /\
                 re.finditer_from __rebox__ w p 0
                   (a ++ py "$box" ++ body ++ py "$endbox" ++ rest)
                 = mo :: re.finditer_from __rebox__ w p' 0 rest).
      { rewrite E in Hf, Hm |- *.
        apply finditer_from_first; auto. discriminate. }
      destruct Hit as (mo & p' & Hre & Hcaps & Hit).
      rewrite Hit in Hc |- *. cbn [forallb] in Hc.
      apply andb_true_iff in Hc. destruct Hc as [Hc1 Hc2].
      destruct (fragment_clean_inv _ Hc1) as (h & Hr & Hdol & Hbs).
      cbn [fold_left bind]. rewrite parse_step_render, Hr. cbn [bind].
      rewrite app_assoc.
      rewrite (sub1_first __rebox__ _ (d ++ a) _ rest [(1, body)] Hbs);
        [| |exact Hm].
      * rewrite app_assoc.
        apply IH; auto.
        -- rewrite !length_app in Hn. simpl in Hn. lia.
        -- rewrite <- app_assoc. eapply settled_step; eauto.
      * apply fails_in_app; [apply Hd|exact Hf].
Qed.

(* ================================================================== *)
(** * The claims of the specification *)

(** C1, as amended.  [parse] has no counter: [number] is set to 0 by
    [Box.__init__] and never assigned again, so every box that [get]
    fills keeps number 0 and a caption with both a type and a body reads
    "type 0: body".  The box of the example renders the caption
    "figure 0: A sample", and two sequential figure boxes both carry the
    number 0. *)
Theorem captions_numbered_zero :
  (forall source,
      exists b,
        get (Box_init (py "box")) source = Ok b
        /\ number b = 0%Z
        /\ (truthy (cap_type b) = true -> truthy (cap b) = true ->
            exists t c,
              cap_type b = Some t /\ cap b = Some c /\
              caption_txt b = Ok (t ++ py " 0: " ++ c)))
  /\ parse sample_box
     = Ok (dq (py "<div markdown='1' class='box'><div class='box content'>Body text</div><div class='box caption' style='color:red;'>figure 0: A sample</div></div>"))
  /\ parse two_figures
     = Ok (dq (py "<div markdown='1' class='box'><div class='box content'>A</div><div class='box caption'>figure 0: First</div></div> and <div markdown='1' class='box'><div class='box content'>B</div><div class='box caption'>figure 0: Second</div></div>")).
Proof.
  split; [|split; vm_compute; reflexivity].
  intros source. eexists. split; [apply get_eq|].
  set (b := after _ _ _ _).
  assert (N : number b = 0%Z).
  { unfold b.
    rewrite (after_fields number), (after_fields number),
      (after_fields number); auto.
    - intros; apply style_of_fields.
    - intros; apply caption_of_fields.
    - intros; apply content_of_fields. }
  split; [exact N|].
  intros H1 H2. unfold caption_txt. rewrite H1, H2, N.
  destruct (cap_type b) as [t|], (cap b) as [c|]; try discriminate.
  exists t, c. auto.
Qed.

(** An instance: the caption of the example. *)
Lemma captions_numbered_zero_witness :
  exists b,
    get (Box_init (py "box")) (py "$caption(figure){A sample}$content{Body}")
    = Ok b
    /\ caption_txt b = Ok (py "figure 0: A sample").
Proof.
  destruct (proj1 captions_numbered_zero
              (py "$caption(figure){A sample}$content{Body}"))
    as (b & Hg & _ & H).
  exists b. split; [exact Hg|].
  vm_compute in Hg. injection Hg as <-.
  destruct (H eq_refl eq_refl) as (t & c & Ht & Hc & Htxt).
  injection Ht as <-. injection Hc as <-. exact Htxt.
Defined.

(** Against the numbering from 1: the document of the example is
    rendered with the caption "figure 0: A sample", and
    "figure 1: A sample" occurs nowhere in the output. *)
Lemma numbering_counterexample :
  exists out,
    parse sample_box = Ok out
    /\ contains (py "figure 0: A sample") out = true
    /\ contains (py "figure 1: A sample") out = false.
Proof. eexists. split; [vm_compute; reflexivity|]. split; reflexivity. Qed.

(** C2, as amended.  [parse] takes the matches of the outer pattern
    from one scan of the document as it was given, and for each of them
    replaces the first occurrence of the pattern in the working copy.
    When every one of these boxes is rendered and its fragment holds
    neither a [$] nor a backslash, the pass returns, and the string it
    returns has no span that matches the outer pattern. *)
Theorem parse_clean_no_span (source : str) :
  forallb fragment_clean (re.finditer __rebox__ source) = true ->
  exists out,
    parse source = Ok out /\ re.search __rebox__ out = None.
Proof.
  intros H.
  apply (parse_loop (length source) source source 0 []);
    auto using settled_nil.
Qed.

(** An instance: a document with one box. *)
Lemma parse_clean_no_span_witness :
  exists out,
    parse (py "Text $box$content{Hi}$endbox more") = Ok out
    /\ re.search __rebox__ out = None.
Proof. apply parse_clean_no_span. vm_compute. reflexivity. Defined.

(** Against the absence of spans in every output: the content of the box of this document is the
    text [$box]; it is copied into the fragment, and with the [$endbox]
    that follows the box the output has a span of the outer pattern that
    the pass does not visit. *)
Lemma parse_leaves_span_counterexample :
  exists out,
    parse (py "$box$content{$box}$endbox$endbox") = Ok out
    /\ re.search __rebox__ out <> None.
Proof.
  eexists. split; [vm_compute; reflexivity|]. vm_compute. discriminate.
Qed.

(** C3, as amended.  For every box body in which the content pattern
    finds no match, [get] returns a box whose [ctn] is [None], whose
    [ctn_options] is [None] and whose [ctn_type] is the default of the
    constructor, and [to_html] of that box raises [TypeError]: the text
    node of the content element is given [None]. *)
Theorem no_content_render_raises (default source : str) :
  re.search __rectn__ source = None ->
  exists b,
    get (Box_init default) source = Ok b
    /\ ctn b = None
    /\ ctn_options b = None
    /\ ctn_type b = default
    /\ to_html b = Raise TypeError.
Proof.
  intros H. eexists. split; [apply get_eq|].
  rewrite after_None by assumption.
  assert (Fs : forall A (proj : Box -> A),
             (forall b c, proj (style_of b c) = proj b) ->
             (forall b c, proj (caption_of b c) = proj b) ->
             proj (after __recap__ source caption_of
                     (after __restl__ source style_of (Box_init default)))
             = proj (Box_init default)).
  { intros A proj Hs Hc. now rewrite !after_fields. }
  assert (E : ctn (after __recap__ source caption_of
                     (after __restl__ source style_of (Box_init default)))
              = None).
  { apply (Fs _ ctn); intros.
    - apply style_of_fields.
    - apply caption_of_fields. }
  split; [exact E|].
  split; [|split].
  - apply (Fs _ ctn_options); intros.
    + apply style_of_fields.
    + apply caption_of_fields.
  - apply (Fs _ ctn_type); intros.
    + apply style_of_fields.
    + apply caption_of_fields.
  - now apply to_html_None.
Qed.

(** An instance: a body that has a caption only. *)
Lemma no_content_render_raises_witness :
  exists b,
    get (Box_init (py "box")) (py "$caption(figure){Only a caption}") = Ok b
    /\ ctn b = None
    /\ ctn_options b = None
    /\ ctn_type b = py "box"
    /\ to_html b = Raise TypeError.
Proof.
  apply no_content_render_raises. reflexivity.
Defined.

(** Against the rendering of a box without content: this body has no
    content field, and no fragment is produced for the box parsed from
    it. *)
Lemma no_content_counterexample :
  re.search __rectn__ (py "$caption(figure){Only a caption}") = None
  /\ ~ (exists b h,
          get (Box_init (py "box")) (py "$caption(figure){Only a caption}")
          = Ok b /\ to_html b = Ok h).
Proof.
  split; [reflexivity|].
  intros (b & h & Hg & Hh).
  vm_compute in Hg. injection Hg as <-. vm_compute in Hh. discriminate.
Qed.

(** C4.  The code compares the captured type with "none" before it
    trims it: the type " none " is kept, as the string "none", and the
    caption reads "none 0: Some text"; the type "none" without padding
    is suppressed and the caption is the body alone. *)
Theorem caption_none_padded :
  (exists b,
      get (Box_init (py "box")) (py "$caption( none ){Some text}$content{Y}")
      = Ok b
      /\ cap_type b = Some (py "none")
      /\ cap b = Some (py "Some text")
      /\ caption_txt b = Ok (py "none 0: Some text"))
  /\ (exists b,
         get (Box_init (py "box")) (py "$caption(none){Some text}$content{Y}")
         = Ok b
         /\ cap_type b = None
         /\ cap b = Some (py "Some text")
         /\ caption_txt b = Ok (py "Some text")).
Proof.
  split; eexists; (split; [vm_compute; reflexivity|]); repeat split.
Qed.



(** C6.  For every box body, [get] stores in [ctn_type] the trimmed
    text of the type that the content pattern captured, whatever it is,
    when that text is non-empty, and leaves the default of the
    constructor otherwise; in particular for the body
    [$content(T){X}], with no [)] in [T] and no [}] in [X], the type is
    [T] trimmed. *)
Theorem content_type_verbatim (default source : str) :
  exists b,
    get (Box_init default) source = Ok b
    /\ ctn_type b =
       match re.search __rectn__ source with
       | Some m =>
           match re.group m "ctn_type" with
           | Ok (Some (x :: t)) => strip (x :: t)
           | _ => default
           end
       | None => default
       end
    /\ (forall T X,
          source = py "$content(" ++ T ++ py "){" ++ X ++ py "}" ->
          ~ In ")"%char T -> ~ In "}"%char X -> T <> [] ->
          ctn_type b = strip T).
Proof.
  eexists. split; [apply get_eq|].
  assert (H : forall s b0,
             ctn_type (after __rectn__ s content_of b0) =
             match re.search __rectn__ s with
             | Some m =>
                 match re.group m "ctn_type" with
                 | Ok (Some (x :: t)) => strip (x :: t)
                 | _ => ctn_type b0
                 end
             | None => ctn_type b0
             end).
  { intros s b0. unfold after.
    destruct (re.search __rectn__ s) as [m|] eqn:E; [|reflexivity].
    rewrite (group_eq _ _ _ "ctn_type" 2 E eq_refl).
    unfold content_of.
    destruct (re.lookup 2 (re.m_caps m)) as [[|x t]|];
      destruct (truthy (re.lookup 4 (re.m_caps m))); reflexivity. }
  assert (D : ctn_type (after __recap__ source caption_of
                          (after __restl__ source style_of (Box_init default)))
              = default).
  { rewrite (after_fields ctn_type), (after_fields ctn_type); auto.
    - intros; apply style_of_fields.
    - intros; apply caption_of_fields. }
  split.
  - rewrite H, D. reflexivity.
  - intros T X -> HT HX HN. rewrite H.
    rewrite (search_here _ _ _ _ (typed_content_rectn T X HT HX)).
    unfold re.group. cbn [re.m_re re.m_caps]. simpl.
    destruct T; [congruence|reflexivity].
Qed.

(** An instance: a type outside the documented values. *)
Lemma content_type_verbatim_witness :
  exists b,
    get (Box_init (py "box")) (py "$content(" ++ py " banana " ++ py "){" ++ py "x" ++ py "}") = Ok b
    /\ ctn_type b = strip (py " banana ").
Proof.
  destruct (content_type_verbatim (py "box")
              (py "$content(" ++ py " banana " ++ py "){" ++ py "x" ++ py "}"))
    as (b & Hg & _ & H).
  exists b. split; [exact Hg|].
  apply (H (py " banana ") (py "x") eq_refl);
    simpl; intuition discriminate.
Defined.

(** C7, as amended.  For every [X] that holds neither [$] nor [}], the
    body [$content{X}] is parsed to a box whose [ctn] is [X] with the
    whitespace at both ends removed, and whose style and caption
    fields are [None]. *)
Theorem only_content_fields (X : str) :
  ~ In "$"%char X -> ~ In "}"%char X ->
  get (Box_init (py "box")) (py "$content{" ++ X ++ py "}")
  = Ok {| number := 0; ctn_type := py "box"; style := None;
          ctn_options := None; cap_options := None; cap_type := None;
          ctn := Some (strip X); cap := None |}.
Proof.
  intros HD HB. rewrite get_eq.
  rewrite (after_None __restl__) by now apply only_content_restl.
  rewrite (after_None __recap__) by now apply only_content_recap.
  unfold after.
  rewrite (search_here _ _ _ _ (only_content_rectn X HB)).
  cbn [re.m_caps]. unfold content_of, stripped. simpl re.lookup.
  destruct X; reflexivity.
Qed.

(** An instance: a padded content. *)
Lemma only_content_fields_witness :
  get (Box_init (py "box")) (py "$content{" ++ py " Hi " ++ py "}")
  = Ok {| number := 0; ctn_type := py "box"; style := None;
          ctn_options := None; cap_options := None; cap_type := None;
          ctn := Some (strip (py " Hi ")); cap := None |}.
Proof.
  apply (only_content_fields (py " Hi ")); simpl; intuition discriminate.
Defined.

(** Against the content stored as written: the content " X " is
    stored as "X". *)
Lemma only_content_counterexample :
  exists b, get (Box_init (py "box")) (py "$content{ X }") = Ok b
            /\ ctn b = Some (py "X") /\ ctn b <> Some (py " X ").
Proof.
  eexists. split; [vm_compute; reflexivity|]. split; [reflexivity|].
  discriminate.
Qed.

(** C8.  [get] returns for every default type and every source: none
    of the method calls on a group is reached with [None].  The fields
    of a pattern that has no match stay as the constructor set them,
    and the content pattern has no match in a source without a closing
    brace. *)
Theorem get_never_raises (default source : str) :
  exists b,
    get (Box_init default) source = Ok b
    /\ (re.search __restl__ source = None -> style b = None)
    /\ (re.search __recap__ source = None ->
        cap_type b = None /\ cap_options b = None /\ cap b = None)
    /\ (re.search __rectn__ source = None ->
        ctn_type b = default /\ ctn_options b = None /\ ctn b = None)
    /\ (~ In "}"%char source -> re.search __rectn__ source = None).
Proof.
  eexists. split; [apply get_eq|].
  repeat split.
  - intros H.
    rewrite (after_fields style), (after_fields style), after_None; auto.
    + intros; apply caption_of_fields.
    + intros; apply content_of_fields.
  - rewrite (after_fields cap_type), after_None; auto.
    + now rewrite (after_fields cap_type) by (intros; apply style_of_fields).
    + intros; apply content_of_fields.
  - rewrite (after_fields cap_options), after_None; auto.
    + now rewrite (after_fields cap_options) by (intros; apply style_of_fields).
    + intros; apply content_of_fields.
  - rewrite (after_fields cap), after_None; auto.
    + now rewrite (after_fields cap) by (intros; apply style_of_fields).
    + intros; apply content_of_fields.
  - rewrite after_None; auto.
    rewrite (after_fields ctn_type), (after_fields ctn_type); auto.
    + intros; apply style_of_fields.
    + intros; apply caption_of_fields.
  - rewrite after_None; auto.
    rewrite (after_fields ctn_options), (after_fields ctn_options); auto.
    + intros; apply style_of_fields.
    + intros; apply caption_of_fields.
  - rewrite after_None; auto.
    rewrite (after_fields ctn), (after_fields ctn); auto.
    + intros; apply style_of_fields.
    + intros; apply caption_of_fields.
  - apply rectn_unterminated.
Qed.

(** An instance: a content field whose brace is never closed. *)
Lemma get_never_raises_witness :
  exists b,
    get (Box_init (py "box")) (py "$content{unterminated") = Ok b
    /\ ctn b = None.
Proof.
  destruct (get_never_raises (py "box") (py "$content{unterminated"))
    as (b & Hg & _ & _ & Hc & Hn).
  exists b. split; [exact Hg|].
  apply Hc, Hn. simpl. intuition discriminate.
Defined.

(** C9.  A document in which [$box] does not occur is returned
    unchanged. *)
Theorem parse_no_box_unchanged (d : str) :
  contains (py "$box") d = false -> parse d = Ok d.
Proof.
  intros H. unfold parse, re.finditer.
  rewrite finditer_from_nil; [reflexivity|].
  intros pre t ->. apply (Seq_Str_fails (str * re.caps)).
  destruct (strip_prefix (py "$box") t) as [u|] eqn:E; [|reflexivity].
  apply strip_prefix_Some in E. subst.
  now destruct (contains_false _ _ H pre u).
Qed.

(** An instance: a document with other markup but no box. *)
Lemma parse_no_box_unchanged_witness :
  parse (py "Plain $content{text} with no box") = Ok (py "Plain $content{text} with no box").
Proof. apply parse_no_box_unchanged. reflexivity. Defined.

(** C10.  [caption_txt] raises [UnboundLocalError] exactly when neither
    [cap] nor [cap_type] is non-empty; in that case [put_caption] leaves
    the document as it is without calling it, [put_caption] never
    raises, and [to_html] never raises [UnboundLocalError]. *)
Theorem caption_txt_unbound_unreachable (b : Box) :
  (caption_txt b = Raise UnboundLocalError <->
   truthy (cap b) = false /\ truthy (cap_type b) = false)
  /\ (forall d, truthy (cap b) = false -> truthy (cap_type b) = false ->
                put_caption b d = Ok (tt, d))
  /\ (forall d, exists d', put_caption b d = Ok (tt, d'))
  /\ to_html b <> Raise UnboundLocalError.
Proof.
  repeat split.
  - unfold caption_txt in H.
    destruct (cap_type b) as [[|c1 t1]|], (cap b) as [[|c2 t2]|];
      simpl in *; congruence.
  - unfold caption_txt in H.
    destruct (cap_type b) as [[|c1 t1]|], (cap b) as [[|c2 t2]|];
      simpl in *; congruence.
  - intros [H1 H2]. unfold caption_txt. now rewrite H1, H2.
  - intros d H1 H2. apply put_caption_silent. now rewrite H1, H2.
  - intros d. destruct (put_caption_total b d) as [extra H]. eauto.
  - destruct (ctn b) as [x|] eqn:E.
    + destruct (to_html_Some b x E) as [h ->]. discriminate.
    + rewrite (to_html_None b E). discriminate.
Qed.

(** An instance: the box that the constructor returns. *)
Lemma caption_txt_unbound_unreachable_witness :
  caption_txt (Box_init (py "box")) = Raise UnboundLocalError
  /\ put_caption (Box_init (py "box")) yattag.new_doc = Ok (tt, yattag.new_doc).
Proof.
  pose proof (caption_txt_unbound_unreachable (Box_init (py "box")))
    as (H1 & H2 & _).
  split.
  - apply H1. split; reflexivity.
  - apply H2; reflexivity.
Defined.

(* ================================================================== *)
(** * Further properties of the code *)

(** ** First occurrences *)

Lemma strip_prefix_firstn_nil w B z k :
  strip_prefix w B = Some z -> length w <= k ->
  exists z', strip_prefix w (firstn k B) = Some z'.
Proof.
  revert B k. induction w as [|a w IH]; intros B k H Hk.
  - simpl. eauto.
  - destruct B as [|x B]; [discriminate|].
    destruct k as [|k]; [simpl in Hk; lia|].
    cbn [strip_prefix firstn] in H |- *.
    destruct (Ascii.eqb a x); [|discriminate].
    apply (IH B k H). simpl in Hk. lia.
Qed.

Lemma strip_prefix_firstn w A B z k :
  strip_prefix w (A ++ B) = Some z -> length w <= length A + k ->
  exists z', strip_prefix w (A ++ firstn k B) = Some z'.
Proof.
  revert w. induction A as [|x A IH]; intros w H Hk.
  - simpl in *. eapply strip_prefix_firstn_nil; eauto.
  - destruct w as [|a w]; [simpl; eauto|].
    cbn [strip_prefix app] in H |- *.
    destruct (Ascii.eqb a x); [|discriminate].
    apply IH; auto. simpl in Hk. lia.
Qed.

Lemma firstn_removelast (w rest : str) :
  firstn (length w - 1) (w ++ rest) = removelast w.
Proof.
  rewrite removelast_firstn_len.
  rewrite firstn_app.
  replace (length w - 1 - length w) with 0 by lia.
  simpl. rewrite app_nil_r. f_equal. lia.
Qed.

(** [w] occurs in [pre ++ w ++ rest] first at the end of [pre], when it
    does not occur in [pre] followed by [w] without its last
    character. *)
Lemma first_occurrence w pre rest :
  contains w (pre ++ removelast w) = false ->
  forall p1 y p2, pre = p1 ++ y :: p2 ->
                  strip_prefix w (y :: p2 ++ w ++ rest) = None.
Proof.
  intros H p1 y p2 ->.
  destruct (strip_prefix w (y :: p2 ++ w ++ rest)) as [z|] eqn:E;
    [exfalso|reflexivity].
  destruct (strip_prefix_firstn w (y :: p2) (w ++ rest) z (length w - 1) E)
    as [z' Hz]; [simpl; lia|].
  rewrite firstn_removelast in Hz. apply strip_prefix_Some in Hz.
  apply (contains_false _ _ H p1 z').
  rewrite <- app_assoc. cbn [app]. rewrite <- Hz. reflexivity.
Qed.

Lemma keyword_fails kw r0 pre rest :
  contains kw (pre ++ removelast kw) = false ->
  fails_in (re.Seq (re.Str kw) r0) pre (kw ++ rest).
Proof.
  intros H p1 y p2 E. apply Seq_Str_fails.
  now apply (first_occurrence kw pre rest H p1 y p2).
Qed.

Lemma after_at r pre u rest c f self :
  fails_in r pre u ->
  re.match_here r u = Some (rest, c) ->
  after r (pre ++ u) f self = f self c.
Proof.
  intros Hf Hm. unfold after, re.search.
  rewrite search_from_skip by assumption.
  destruct u; simpl; now rewrite Hm.
Qed.

(** ** Optional qualifiers *)

Lemma star_qualifier_opt R i a nm b ca cb v rest c (k : re.cont R) x :
  py a = [ca] -> py b = [cb] ->
  free_of cb v ->
  strip_prefix [ca] rest = None ->
  k rest (qual_caps i ca v cb ++ c) = Some x ->
  re.rmatch (re.Star (qualifier i a nm b)) (qual ca v cb ++ rest) c k
  = Some x.
Proof.
  intros Ha Hb Hv Hrest Hk.
  destruct v as [t|]; cbn [qual qual_caps free_of app] in *.
  - rewrite <- app_assoc. cbn [app].
    eapply star_qualifier_once; eauto.
  - rewrite star_qualifier_skip by now rewrite Ha. exact Hk.
Qed.

Lemma opens_false s :
  opens s = false ->
  strip_prefix [("(")%char] s = None /\ strip_prefix [("[")%char] s = None
  /\ strip_prefix [("{")%char] s = None.
Proof.
  destruct s as [|c s]; [auto|]. cbn [opens strip_prefix].
  rewrite (Ascii.eqb_sym "("%char), (Ascii.eqb_sym "["%char),
    (Ascii.eqb_sym "{"%char).
  destruct (Ascii.eqb c "("), (Ascii.eqb c "["), (Ascii.eqb c "{");
    simpl; try discriminate; auto.
Qed.

Lemma qual_not_open o v c ca rest :
  o <> ca -> strip_prefix [ca] rest = None ->
  strip_prefix [ca] (qual o v c ++ rest) = None.
Proof.
  intros Hne Hrest. destruct v as [t|]; [|exact Hrest].
  cbn [qual app strip_prefix].
  destruct (Ascii.eqb_spec ca o); [congruence|reflexivity].
Qed.

(** ** The field patterns on the documented syntax *)

Lemma restl_here S post :
  ~ In "]"%char S ->
  re.match_here __restl__ (py "$style[" ++ S ++ py "]" ++ post)
  = Some (post, [(1, S)]).
Proof.
  intros HS. unfold re.match_here, __restl__.
  change (re.rmatch (re.Seq (re.Str (py "$style[")) ?r2)
            (py "$style[" ++ ?s) ?c0 ?k)
    with (re.rmatch r2 s c0 k).
  now apply (lazy_until_char (str * re.caps) 1 (Some "style"%string)
               "]"%char S post).
Qed.

Lemma rectn_here T O X post :
  free_of ")"%char T -> free_of "]"%char O -> ~ In "}"%char X ->
  re.match_here __rectn__
    (py "$content" ++ qual "(" T ")" ++ qual "[" O "]"
     ++ "{"%char :: X ++ "}"%char :: post)
  = Some (post, (5, X) :: qual_caps 3 "[" O "]" ++ qual_caps 1 "(" T ")").
Proof.
  intros HT HO HX. unfold re.match_here, __rectn__.
  change (re.rmatch (re.Seq (re.Str (py "$content")) ?r2)
            (py "$content" ++ ?s) ?c0 ?k)
    with (re.rmatch r2 s c0 k).
  change (re.rmatch (re.Seq ?r1 ?r2) ?s ?c0 ?k)
    with (re.rmatch r1 s c0 (fun s' c' => re.rmatch r2 s' c' k)).
  apply (star_qualifier_opt _ 1 "(" "ctn_type" ")" "("%char ")"%char);
    auto.
  { apply qual_not_open; [discriminate|reflexivity]. }
  change (re.rmatch (re.Seq ?r1 ?r2) ?s ?c0 ?k)
    with (re.rmatch r1 s c0 (fun s' c' => re.rmatch r2 s' c' k)).
  apply (star_qualifier_opt _ 3 "[" "ctn_options" "]" "["%char "]"%char);
    auto.
  change (re.rmatch (re.Seq (re.Str (py "{")) ?r2) ("{"%char :: ?s) ?c0 ?k)
    with (re.rmatch r2 s c0 k).
  apply (lazy_until_char (str * re.caps) 5 (Some "ctn"%string) "}"%char X post).
  - exact HX.
  - now rewrite app_nil_r.
Qed.

Lemma recap_here T O B post :
  free_of ")"%char T -> free_of "]"%char O -> free_of "}"%char B ->
  opens post = false ->
  re.match_here __recap__
    (py "$caption" ++ qual "(" T ")" ++ qual "[" O "]" ++ qual "{" B "}"
     ++ post)
  = Some (post, qual_caps 5 "{" B "}" ++ qual_caps 3 "[" O "]"
                ++ qual_caps 1 "(" T ")").
Proof.
  intros HT HO HB Hp. destruct (opens_false _ Hp) as (P1 & P2 & P3).
  unfold re.match_here, __recap__.
  change (re.rmatch (re.Seq (re.Str (py "$caption")) ?r2)
            (py "$caption" ++ ?s) ?c0 ?k)
    with (re.rmatch r2 s c0 k).
  change (re.rmatch (re.Seq ?r1 ?r2) ?s ?c0 ?k)
    with (re.rmatch r1 s c0 (fun s' c' => re.rmatch r2 s' c' k)).
  apply (star_qualifier_opt _ 1 "(" "cap_type" ")" "("%char ")"%char);
    auto.
  { apply qual_not_open; [discriminate|].
    apply qual_not_open; [discriminate|exact P1]. }
  change (re.rmatch (re.Seq ?r1 ?r2) ?s ?c0 ?k)
    with (re.rmatch r1 s c0 (fun s' c' => re.rmatch r2 s' c' k)).
  apply (star_qualifier_opt _ 3 "[" "cap_options" "]" "["%char "]"%char);
    auto.
  { apply qual_not_open; [discriminate|exact P2]. }
  apply (star_qualifier_opt _ 5 "{" "cap" "}" "{"%char "}"%char); auto.
  now rewrite app_nil_r, app_assoc.
Qed.

Lemma get_style_at (self : Box) (pre S post : str) :
  fails_in __restl__ pre (py "$style[" ++ S ++ py "]" ++ post) ->
  ~ In "]"%char S ->
  __get_style self (pre ++ py "$style[" ++ S ++ py "]" ++ post)
  = Ok (match S with
        | [] => self
        | _ => set_style self (Some (strip S))
        end).
Proof.
  intros Hpre HS. rewrite get_style_eq.
  rewrite (after_at __restl__ pre _ post [(1, S)]).
  - unfold style_of, stripped. simpl re.lookup. now destruct S.
  - exact Hpre.
  - now apply restl_here.
Qed.

(** X1.  [__get_style] on a source whose first [$style[] is followed by
    the text [S] and a closing bracket: the style is [S] trimmed, and an
    empty [S] leaves the box as it was. *)
Theorem get_style_documented (self : Box) (pre S post : str) :
  contains (py "$style[") (pre ++ py "$style") = false ->
  ~ In "]"%char S ->
  __get_style self (pre ++ py "$style[" ++ S ++ py "]" ++ post)
  = Ok (match S with
        | [] => self
        | _ => set_style self (Some (strip S))
        end).
Proof.
  intros Hpre HS. apply get_style_at; auto.
  now apply (keyword_fails (py "$style[")).
Qed.

(** An instance. *)
Lemma get_style_documented_witness :
  __get_style (Box_init (py "box"))
    (py "$box " ++ py "$style[" ++ py " color:red; " ++ py "]" ++ py " $content{x}")
  = Ok (set_style (Box_init (py "box")) (Some (strip (py " color:red; ")))).
Proof.
  apply (get_style_documented (Box_init (py "box")) (py "$box ")
           (py " color:red; ") (py " $content{x}")).
  - reflexivity.
  - simpl. intuition discriminate.
Defined.

Lemma get_content_at (self : Box) (pre X post : str)
    (T O : option str) :
  fails_in __rectn__ pre
    (py "$content" ++ qual "(" T ")" ++ qual "[" O "]"
     ++ "{"%char :: X ++ "}"%char :: post) ->
  free_of ")"%char T -> free_of "]"%char O -> ~ In "}"%char X ->
  __get_content self
    (pre ++ py "$content" ++ qual "(" T ")" ++ qual "[" O "]"
     ++ "{"%char :: X ++ "}"%char :: post)
  = Ok {| number := number self;
          ctn_type := match T with
                      | Some (x :: t) => strip (x :: t)
                      | _ => ctn_type self
                      end;
          style := style self;
          ctn_options := assigned O (ctn_options self);
          cap_options := cap_options self;
          cap_type := cap_type self;
          ctn := Some (strip X);
          cap := cap self |}.
Proof.
  intros Hpre HT HO HX. rewrite get_content_eq.
  rewrite (after_at __rectn__ pre _ _ _ _ _
             Hpre
             (rectn_here T O X post HT HO HX)).
  unfold content_of, stripped, assigned.
  destruct T as [[|x t]|], O as [[|x' t']|], X as [|x'' t''];
    reflexivity.
Qed.

(** X3.  [__get_content] on the documented content syntax, the type and
    the options being there or not: the type and the options are stored
    trimmed when they are not empty, and the content is the text
    between the braces, trimmed. *)
Theorem get_content_documented (self : Box) (pre X post : str)
    (T O : option str) :
  contains (py "$content") (pre ++ py "$conten") = false ->
  free_of ")"%char T -> free_of "]"%char O -> ~ In "}"%char X ->
  __get_content self
    (pre ++ py "$content" ++ qual "(" T ")" ++ qual "[" O "]"
     ++ "{"%char :: X ++ "}"%char :: post)
  = Ok {| number := number self;
          ctn_type := match T with
                      | Some (x :: t) => strip (x :: t)
                      | _ => ctn_type self
                      end;
          style := style self;
          ctn_options := assigned O (ctn_options self);
          cap_options := cap_options self;
          cap_type := cap_type self;
          ctn := Some (strip X);
          cap := cap self |}.
Proof.
  intros Hpre HT HO HX. apply get_content_at; auto.
  now apply (keyword_fails (py "$content")).
Qed.

(** An instance. *)
Lemma get_content_documented_witness :
  __get_content (Box_init (py "box"))
    (py "$caption{c} " ++ py "$content" ++ qual "(" (Some (py "figure")) ")"
     ++ qual "[" (Some (py " padding:0 2%; ")) "]"
     ++ "{"%char :: py " an image " ++ "}"%char :: py " $endbox")
  = Ok {| number := 0;
          ctn_type := py "figure";
          style := None;
          ctn_options := Some (py "padding:0 2%;");
          cap_options := None;
          cap_type := None;
          ctn := Some (py "an image");
          cap := None |}.
Proof.
  apply (get_content_documented (Box_init (py "box")) (py "$caption{c} ")
           (py " an image ") (py " $endbox")
           (Some (py "figure")) (Some (py " padding:0 2%; ")));
    simpl; try reflexivity; intuition discriminate.
Defined.

Lemma get_caption_at (self : Box) (pre post : str)
    (T O B : option str) :
  fails_in __recap__ pre
    (py "$caption" ++ qual "(" T ")" ++ qual "[" O "]" ++ qual "{" B "}"
     ++ post) ->
  free_of ")"%char T -> free_of "]"%char O -> free_of "}"%char B ->
  opens post = false ->
  __get_caption self
    (pre ++ py "$caption" ++ qual "(" T ")" ++ qual "[" O "]"
     ++ qual "{" B "}" ++ post)
  = Ok {| number := number self;
          ctn_type := ctn_type self;
          style := style self;
          ctn_options := ctn_options self;
          cap_options := assigned O (cap_options self);
          cap_type := match T with
                      | Some (x :: t) =>
                          if str_eqb (lower (x :: t)) (py "none") then None
                          else Some (strip (x :: t))
                      | _ => cap_type self
                      end;
          ctn := ctn self;
          cap := option_map strip B |}.
Proof.
  intros Hpre HT HO HB Hp. rewrite get_caption_eq.
  rewrite (after_at __recap__ pre _ _ _ _ _
             Hpre
             (recap_here T O B post HT HO HB Hp)).
  unfold caption_of, stripped, assigned.
  destruct T as [[|x t]|], O as [[|x' t']|], B as [[|x'' t'']|];
    cbn [qual_caps app re.lookup Nat.eqb truthy option_map];
    try destruct (str_eqb _ _); reflexivity.
Qed.

(** X2.  [__get_caption] on the documented caption syntax, each of the
    type, the options and the text being there or not: the type is
    stored trimmed, or removed when it reads "none"; the options are
    stored trimmed; the text is stored trimmed, and a caption without
    text sets it to [None].  Empty type or options leave the field as it
    was. *)
Theorem get_caption_documented (self : Box) (pre post : str)
    (T O B : option str) :
  contains (py "$caption") (pre ++ py "$captio") = false ->
  free_of ")"%char T -> free_of "]"%char O -> free_of "}"%char B ->
  opens post = false ->
  __get_caption self
    (pre ++ py "$caption" ++ qual "(" T ")" ++ qual "[" O "]"
     ++ qual "{" B "}" ++ post)
  = Ok {| number := number self;
          ctn_type := ctn_type self;
          style := style self;
          ctn_options := ctn_options self;
          cap_options := assigned O (cap_options self);
          cap_type := match T with
                      | Some (x :: t) =>
                          if str_eqb (lower (x :: t)) (py "none") then None
                          else Some (strip (x :: t))
                      | _ => cap_type self
                      end;
          ctn := ctn self;
          cap := option_map strip B |}.
Proof.
  intros Hpre HT HO HB Hp. apply get_caption_at; auto.
  now apply (keyword_fails (py "$caption")).
Qed.

(** An instance. *)
Lemma get_caption_documented_witness :
  __get_caption (Box_init (py "box"))
    (py "$box " ++ py "$caption" ++ qual "(" (Some (py "Fig.")) ")"
     ++ qual "[" None "]" ++ qual "{" (Some (py " A plot ")) "}"
     ++ py " $content{x}")
  = Ok {| number := 0;
          ctn_type := py "box";
          style := None;
          ctn_options := None;
          cap_options := None;
          cap_type := Some (py "Fig.");
          ctn := None;
          cap := Some (py "A plot") |}.
Proof.
  apply (get_caption_documented (Box_init (py "box")) (py "$box ")
           (py " $content{x}") (Some (py "Fig.")) None (Some (py " A plot ")));
    simpl; try reflexivity; intuition discriminate.
Defined.

(** ** Repeated qualifiers *)

Section Fuel.
Variable R : Type.
Implicit Types (k : re.cont R) (s : str) (c : re.caps).

Lemma repeat_greedy_ext step fuel k1 k2 s c :
  ext_step step ->
  (forall s' c', k1 s' c' = k2 s' c') ->
  re.repeat_greedy step fuel k1 s c = re.repeat_greedy step fuel k2 s c.
Proof.
  intros Hs Hk. revert s c. induction fuel as [|f IH]; intros s c; simpl.
  - apply Hk.
  - rewrite Hk. f_equal. apply Hs. intros s' c'. unfold re.progress.
    destruct (_ <? _); auto.
Qed.

Lemma repeat_lazy_ext step fuel k1 k2 s c :
  ext_step step ->
  (forall s' c', k1 s' c' = k2 s' c') ->
  re.repeat_lazy step fuel k1 s c = re.repeat_lazy step fuel k2 s c.
Proof.
  intros Hs Hk. revert s c. induction fuel as [|f IH]; intros s c; simpl.
  - apply Hk.
  - rewrite Hk. unfold re.orelse. destruct (k2 s c); [reflexivity|].
    apply Hs. intros s' c'. unfold re.progress.
    destruct (_ <? _); auto.
Qed.

Lemma rmatch_ext r : ext_step (re.rmatch (R:=R) r).
Proof.
  induction r as [w| |r1 IH1 r2 IH2|r1 IH1|r1 IH1|i n r1 IH1];
    intros s c k1 k2 Hk; simpl.
  - destruct (strip_prefix w s); auto.
  - destruct s; auto.
  - apply IH1. intros s' c'. now apply IH2.
  - now apply repeat_greedy_ext.
  - now apply repeat_lazy_ext.
  - apply IH1. intros s' c'. apply Hk.
Qed.

(** A step given a continuation that always fails, fails. *)
Lemma sound_step_dead (step : re.matcher R) s c k :
  sound_step step -> (forall s' c', k s' c' = None) -> step s c k = None.
Proof.
  intros Hs Hk. destruct (step s c k) as [x|] eqn:E; [|reflexivity].
  apply Hs in E. destruct E as (pre & s' & c' & _ & E).
  now rewrite Hk in E.
Qed.

(** Fuel beyond the length of the input changes nothing. *)
Lemma repeat_greedy_fuel step k f1 :
  sound_step step -> ext_step step ->
  forall f2 s c,
    length s <= f1 -> length s <= f2 ->
    re.repeat_greedy step f1 k s c = re.repeat_greedy step f2 k s c.
Proof.
  intros Hs He. induction f1 as [|f1 IH]; intros f2 s c H1 H2.
  - destruct s; [|simpl in H1; lia].
    destruct f2 as [|f2]; [reflexivity|]. simpl. unfold re.orelse.
    rewrite sound_step_dead; auto.
  - destruct f2 as [|f2].
    + destruct s; [|simpl in H2; lia]. simpl. unfold re.orelse.
      rewrite sound_step_dead; auto.
    + simpl. f_equal. apply He. intros s' c'. unfold re.progress.
      destruct (length s' <? length s) eqn:L; [|reflexivity].
      apply Nat.ltb_lt in L. apply IH; lia.
Qed.
End Fuel.

(** One qualifier taken, the repetition goes on with what follows. *)
Lemma star_qualifier_next R i a nm b ca cb T rest c (k : re.cont R) x :
  py a = [ca] -> py b = [cb] ->
  ~ In cb T ->
  re.rmatch (re.Star (qualifier i a nm b)) rest
            ((i, ca :: T ++ [cb]) :: (S i, T) :: c) k = Some x ->
  re.rmatch (re.Star (qualifier i a nm b)) (ca :: T ++ cb :: rest) c k
  = Some x.
Proof.
  intros Ha Hb HT Hk.
  cbn [re.rmatch length re.repeat_greedy]. unfold re.orelse.
  unfold qualifier at 1. rewrite Ha, Hb. cbn [re.rmatch].
  replace (strip_prefix [ca] (ca :: T ++ cb :: rest))
    with (Some (T ++ cb :: rest))
    by (symmetry; apply (strip_prefix_app [ca])).
  match goal with
  | |- match ?e with _ => _ end = _ =>
      assert (E : e = Some x); [|now rewrite E]
  end.
  enough (E : re.rmatch
                (re.Seq (re.Group (S i) (Some nm) (re.LazyStar re.Any))
                        (re.Str [cb]))
                (T ++ cb :: rest) c
                (fun s'' c'' =>
                   re.progress (ca :: T ++ cb :: rest)
                     (re.repeat_greedy (re.rmatch (qualifier i a nm b))
                        (length (T ++ cb :: rest)) k)
                     s''
                     ((i, firstn (length (ca :: T ++ cb :: rest) - length s'')
                            (ca :: T ++ cb :: rest)) :: c''))
              = Some x) by exact E.
  apply lazy_until_char; auto.
  unfold re.progress.
  replace (length rest <? length (ca :: T ++ cb :: rest)) with true
    by (symmetry; apply Nat.ltb_lt; simpl; rewrite length_app; simpl; lia).
  rewrite (repeat_greedy_fuel R _ k _ (rmatch_reaches R _) (rmatch_ext R _)
             (length rest)); [| rewrite length_app; simpl; lia | lia].
  replace (ca :: T ++ cb :: rest) with ((ca :: T ++ [cb]) ++ rest)
    by (simpl; now rewrite <- app_assoc).
  rewrite firstn_consumed. exact Hk.
Qed.

Lemma star_qualifier_list R i a nm b ca cb Ts rest (k : re.cont R) x :
  py a = [ca] -> py b = [cb] ->
  Forall (fun t => ~ In cb t) Ts ->
  strip_prefix [ca] rest = None ->
  forall c,
    k rest (quals_caps i ca Ts cb ++ c) = Some x ->
    re.rmatch (re.Star (qualifier i a nm b)) (quals ca Ts cb ++ rest) c k
    = Some x.
Proof.
  intros Ha Hb HT Hrest. induction Ts as [|T Ts IH]; intros c Hk.
  - cbn [quals flat_map app]. rewrite star_qualifier_skip by now rewrite Ha.
    exact Hk.
  - inversion HT as [|? ? H1 H2]; subst.
    cbn [quals flat_map app]. rewrite <- !app_assoc. cbn [app].
    apply star_qualifier_next; auto.
    apply (IH H2). unfold quals_caps in *. cbn [rev] in Hk.
    rewrite flat_map_app in Hk. cbn [flat_map] in Hk.
    rewrite app_nil_r, <- app_assoc in Hk. exact Hk.
Qed.

Lemma lookup_app_none j c1 c2 :
  re.lookup j c1 = None -> re.lookup j (c1 ++ c2) = re.lookup j c2.
Proof.
  induction c1 as [|[i v] c1 IH]; simpl; [reflexivity|].
  destruct (j =? i); [discriminate|]. exact IH.
Qed.

Lemma lookup_quals_caps_other j i o vs c :
  j <> i -> j <> S i -> re.lookup j (quals_caps i o vs c) = None.
Proof.
  intros H1 H2. unfold quals_caps.
  induction (rev vs) as [|t l IH]; simpl; [reflexivity|].
  destruct (Nat.eqb_spec j i); [congruence|].
  destruct (Nat.eqb_spec j (S i)); [congruence|]. exact IH.
Qed.

Lemma lookup_quals_caps_last i o vs c :
  re.lookup (S i) (quals_caps i o vs c)
  = match vs with [] => None | _ => Some (last vs []) end.
Proof.
  unfold quals_caps. destruct vs as [|v vs]; [reflexivity|].
  destruct (rev (v :: vs)) as [|t l] eqn:E.
  - apply (f_equal (@length str)) in E. rewrite length_rev in E. discriminate.
  - assert (L : v :: vs = rev l ++ [t])
      by (rewrite <- (rev_involutive (v :: vs)), E; reflexivity).
    rewrite L, last_last. cbn [flat_map app re.lookup].
    destruct (Nat.eqb_spec (S i) i); [lia|].
    now rewrite Nat.eqb_refl.
Qed.

Lemma rectn_here_repeated Ts O X post :
  Forall (fun t => ~ In ")"%char t) Ts ->
  free_of "]"%char O -> ~ In "}"%char X ->
  re.match_here __rectn__
    (py "$content" ++ quals "(" Ts ")" ++ qual "[" O "]"
     ++ "{"%char :: X ++ "}"%char :: post)
  = Some (post, (5, X) :: qual_caps 3 "[" O "]" ++ quals_caps 1 "(" Ts ")").
Proof.
  intros HT HO HX. unfold re.match_here, __rectn__.
  change (re.rmatch (re.Seq (re.Str (py "$content")) ?r2)
            (py "$content" ++ ?s) ?c0 ?k)
    with (re.rmatch r2 s c0 k).
  change (re.rmatch (re.Seq ?r1 ?r2) ?s ?c0 ?k)
    with (re.rmatch r1 s c0 (fun s' c' => re.rmatch r2 s' c' k)).
  apply (star_qualifier_list _ 1 "(" "ctn_type" ")" "("%char ")"%char);
    auto.
  { apply qual_not_open; [discriminate|reflexivity]. }
  change (re.rmatch (re.Seq ?r1 ?r2) ?s ?c0 ?k)
    with (re.rmatch r1 s c0 (fun s' c' => re.rmatch r2 s' c' k)).
  apply (star_qualifier_opt _ 3 "[" "ctn_options" "]" "["%char "]"%char);
    auto.
  change (re.rmatch (re.Seq (re.Str (py "{")) ?r2) ("{"%char :: ?s) ?c0 ?k)
    with (re.rmatch r2 s c0 k).
  apply (lazy_until_char (str * re.caps) 5 (Some "ctn"%string) "}"%char
           X post).
  - exact HX.
  - now rewrite app_nil_r.
Qed.

(** X4.  The content pattern takes any number of type qualifiers in a
    row, and [__get_content] keeps the last of them; when the last one is
    empty the type is left as it was. *)
Theorem get_content_repeated_type (self : Box) (pre X post : str)
    (Ts : list str) (O : option str) :
  contains (py "$content") (pre ++ py "$conten") = false ->
  Forall (fun t => ~ In ")"%char t) Ts ->
  free_of "]"%char O -> ~ In "}"%char X ->
  __get_content self
    (pre ++ py "$content" ++ quals "(" Ts ")" ++ qual "[" O "]"
     ++ "{"%char :: X ++ "}"%char :: post)
  = Ok {| number := number self;
          ctn_type := match last Ts [] with
                      | x :: t => strip (x :: t)
                      | [] => ctn_type self
                      end;
          style := style self;
          ctn_options := assigned O (ctn_options self);
          cap_options := cap_options self;
          cap_type := cap_type self;
          ctn := Some (strip X);
          cap := cap self |}.
Proof.
  intros Hpre HT HO HX. rewrite get_content_eq.
  rewrite (after_at __rectn__ pre _ _ _ _ _
             (keyword_fails (py "$content") _ pre _ Hpre)
             (rectn_here_repeated Ts O X post HT HO HX)).
  assert (L2 : re.lookup 2 (qual_caps 3 "[" O "]" ++ quals_caps 1 "(" Ts ")")
               = match Ts with [] => None | _ => Some (last Ts []) end).
  { rewrite lookup_app_none by (destruct O; reflexivity).
    apply lookup_quals_caps_last. }
  assert (L4 : re.lookup 4 (qual_caps 3 "[" O "]" ++ quals_caps 1 "(" Ts ")")
               = O).
  { destruct O as [t|]; [reflexivity|].
    cbn [qual_caps app]. apply lookup_quals_caps_other; lia. }
  unfold content_of. cbn [re.lookup Nat.eqb].
  rewrite L2, L4. unfold stripped, assigned.
  destruct Ts as [|T0 Ts'].
  - destruct O as [[|x' t']|], X; reflexivity.
  - destruct (last (T0 :: Ts') []) as [|x t];
      destruct O as [[|x' t']|], X; reflexivity.
Qed.

(** An instance. *)
Lemma get_content_repeated_type_witness :
  __get_content (Box_init (py "box"))
    ([] ++ py "$content" ++ quals "(" [py "figure"; py " table "] ")"
     ++ qual "[" None "]" ++ "{"%char :: py "x" ++ "}"%char :: [])
  = Ok {| number := 0;
          ctn_type := py "table";
          style := None;
          ctn_options := None;
          cap_options := None;
          cap_type := None;
          ctn := Some (py "x");
          cap := None |}.
Proof.
  apply (get_content_repeated_type (Box_init (py "box")) [] (py "x") []
           [py "figure"; py " table "] None).
  - reflexivity.
  - repeat constructor; simpl; intuition discriminate.
  - exact I.
  - simpl. intuition discriminate.
Defined.

(** ** A whole box body *)

Lemma fails_in_cons r x a u :
  re.match_here r (x :: a ++ u) = None ->
  fails_in r a u -> fails_in r (x :: a) u.
Proof.
  intros H0 H [|z p1] y p2 E; simpl in E; injection E as <- E.
  - now subst.
  - now apply (H p1 y p2).
Qed.

(** A pattern that starts with [$] fails inside a text without [$]. *)
Lemma dollar_free_fails kw r0 a u :
  ~ In "$"%char a ->
  fails_in (re.Seq (re.Str ("$"%char :: kw)) r0) a u.
Proof.
  intros H p1 y p2 ->. apply Seq_Str_fails. cbn [strip_prefix].
  destruct (Ascii.eqb_spec "$"%char y) as [<-|]; [|reflexivity].
  exfalso. apply H, in_elt.
Qed.

Lemma in_qual x o v c :
  In x (qual o v c) -> x = o \/ x = c \/ ~ free_of x v.
Proof.
  destruct v as [t|]; simpl; [|tauto].
  intros [H|H]; [auto|]. apply in_app_or in H. destruct H as [H|H].
  - right. right. tauto.
  - simpl in H. intuition.
Qed.

Ltac no_dollar :=
  let H := fresh "H" in
  intros H;
  repeat match type of H with
         | In _ (_ ++ _) => apply in_app_or in H; destruct H as [H|H]
         | In _ (_ :: _) => destruct H as [H|H]; [discriminate H|]
         | In _ [] => destruct H
         | In _ (qual _ _ _) =>
             apply in_qual in H; destruct H as [H|[H|H]];
             [discriminate H|discriminate H|contradiction]
         | In _ (py _) => cbn [py list_ascii_of_string] in H
         end;
  try contradiction.

Lemma opens_app w rest :
  opens w = false -> opens rest = false -> opens (w ++ rest) = false.
Proof. destruct w; simpl; auto. Qed.

(** X5.  [get] on a whole box body in the layout of the class
    docstring: a text [w0], [$style[S]], a text [w1], a caption with its
    type [T], options [O] and text [B] each there or not, a text [w2],
    a content with its type [T'] and options [O'] each there or not and
    its text [X], and a last text.  When [w0], [S], [w1], [T], [O], [B]
    and [w2] hold no [$], [w2] does not start with an opening
    parenthesis, bracket or brace, and no qualifier text holds its own
    closing character, every field of a fresh box is the trimmed text
    of its place in the source: an empty style, type or options leaves
    the value of the constructor, a caption type that reads "none" is
    removed, and a caption without text has [cap = None]. *)
Theorem get_documented_body (default w0 S w1 w2 X w3 : str)
    (T O B T' O' : option str) :
  ~ In "$"%char w0 -> ~ In "$"%char S -> ~ In "$"%char w1 ->
  free_of "$"%char T -> free_of "$"%char O -> free_of "$"%char B ->
  ~ In "$"%char w2 -> opens w2 = false ->
  ~ In "]"%char S ->
  free_of ")"%char T -> free_of "]"%char O -> free_of "}"%char B ->
  free_of ")"%char T' -> free_of "]"%char O' -> ~ In "}"%char X ->
  get (Box_init default)
    (w0 ++ py "$style[" ++ S ++ py "]" ++ w1
     ++ py "$caption" ++ qual "(" T ")" ++ qual "[" O "]" ++ qual "{" B "}"
     ++ w2
     ++ py "$content" ++ qual "(" T' ")" ++ qual "[" O' "]"
     ++ "{"%char :: X ++ "}"%char :: w3)
  = Ok {| number := 0;
          ctn_type := match T' with
                      | Some (x :: t) => strip (x :: t)
                      | _ => default
                      end;
          style := assigned (Some S) None;
          ctn_options := assigned O' None;
          cap_options := assigned O None;
          cap_type := match T with
                      | Some (x :: t) =>
                          if str_eqb (lower (x :: t)) (py "none") then None
                          else Some (strip (x :: t))
                      | _ => None
                      end;
          ctn := Some (strip X);
          cap := option_map strip B |}.
Proof.
  intros D0 DS D1 DT DO DB D2 Hop HS HT HO HB HT' HO' HX.
  set (content := py "$content" ++ qual "(" T' ")" ++ qual "[" O' "]"
                  ++ "{"%char :: X ++ "}"%char :: w3).
  set (caption := py "$caption" ++ qual "(" T ")" ++ qual "[" O "]"
                  ++ qual "{" B "}" ++ w2 ++ content).
  unfold get.
  (* style *)
  rewrite get_style_at; [|now apply dollar_free_fails|assumption].
  cbn [bind].
  (* caption *)
  replace (w0 ++ py "$style[" ++ S ++ py "]" ++ w1 ++ caption)
    with ((w0 ++ py "$style[" ++ S ++ py "]" ++ w1) ++ caption)
    by (now rewrite <- !app_assoc).
  unfold caption at 1.
  rewrite get_caption_at; auto.
  2:{ apply fails_in_app; [now apply dollar_free_fails|].
      apply fails_in_cons; [reflexivity|].
      apply dollar_free_fails. no_dollar. }
  2:{ apply opens_app; [assumption|reflexivity]. }
  cbn [bind].
  (* content *)
  replace ((w0 ++ py "$style[" ++ S ++ py "]" ++ w1) ++ caption)
    with (((w0 ++ py "$style[" ++ S ++ py "]" ++ w1)
           ++ py "$caption" ++ qual "(" T ")" ++ qual "[" O "]"
           ++ qual "{" B "}" ++ w2) ++ content)
    by (unfold caption; now rewrite <- !app_assoc).
  unfold content.
  rewrite get_content_at; auto.
  2:{ apply fails_in_app.
      - apply fails_in_app; [now apply dollar_free_fails|].
        apply fails_in_cons; [reflexivity|].
        apply dollar_free_fails. no_dollar.
      - apply fails_in_cons; [reflexivity|].
        apply dollar_free_fails. no_dollar. }
  unfold assigned. destruct S; reflexivity.
Qed.

(** ** Parsing the same source again *)

Lemma style_of_twice b c : style_of (style_of b c) c = style_of b c.
Proof. unfold style_of. destruct (truthy _); reflexivity. Qed.

Lemma caption_of_twice b c : caption_of (caption_of b c) c = caption_of b c.
Proof.
  unfold caption_of.
  destruct (re.lookup 2 c) as [[|x t]|]; try destruct (str_eqb _ _);
    destruct (truthy (re.lookup 4 c)); reflexivity.
Qed.

Lemma content_of_twice b c : content_of (content_of b c) c = content_of b c.
Proof.
  unfold content_of.
  destruct (re.lookup 2 c) as [[|x t]|];
    destruct (truthy (re.lookup 4 c)); reflexivity.
Qed.

Lemma style_caption_comm b c1 c2 :
  style_of (caption_of b c2) c1 = caption_of (style_of b c1) c2.
Proof.
  unfold style_of, caption_of.
  destruct (truthy (re.lookup 1 c1));
    destruct (re.lookup 2 c2) as [[|x t]|]; try destruct (str_eqb _ _);
    destruct (truthy (re.lookup 4 c2)); reflexivity.
Qed.

Lemma style_content_comm b c1 c3 :
  style_of (content_of b c3) c1 = content_of (style_of b c1) c3.
Proof.
  unfold style_of, content_of.
  destruct (truthy (re.lookup 1 c1));
    destruct (re.lookup 2 c3) as [[|x t]|];
    destruct (truthy (re.lookup 4 c3)); reflexivity.
Qed.

Lemma caption_content_comm b c2 c3 :
  caption_of (content_of b c3) c2 = content_of (caption_of b c2) c3.
Proof.
  unfold caption_of, content_of.
  destruct (re.lookup 2 c2) as [[|x t]|]; try destruct (str_eqb _ _);
    destruct (truthy (re.lookup 4 c2));
    destruct (re.lookup 2 c3) as [[|x' t']|];
    destruct (truthy (re.lookup 4 c3)); reflexivity.
Qed.

Lemma after_twice r source f b :
  (forall b c, f (f b c) c = f b c) ->
  after r source f (after r source f b) = after r source f b.
Proof. intros H. unfold after. destruct (re.search r source); auto. Qed.

Lemma after_comm r1 r2 source f g b :
  (forall b c1 c2, f (g b c2) c1 = g (f b c1) c2) ->
  after r1 source f (after r2 source g b)
  = after r2 source g (after r1 source f b).
Proof.
  intros H. unfold after.
  destruct (re.search r1 source), (re.search r2 source); auto.
Qed.

(** X7.  Parsing the same source a second time into the box it gave
    changes nothing. *)
Theorem get_twice (self : Box) (source : str) :
  exists b, get self source = Ok b /\ get b source = Ok b.
Proof.
  eexists. split; [apply get_eq|]. rewrite get_eq. f_equal.
  rewrite (after_comm __restl__ __rectn__ source style_of content_of)
    by apply style_content_comm.
  rewrite (after_comm __restl__ __recap__ source style_of caption_of)
    by apply style_caption_comm.
  rewrite (after_twice __restl__) by apply style_of_twice.
  rewrite (after_comm __recap__ __rectn__ source caption_of content_of)
    by apply caption_content_comm.
  rewrite (after_twice __recap__) by apply caption_of_twice.
  rewrite (after_twice __rectn__) by apply content_of_twice.
  reflexivity.
Qed.

(** X6.  The three field parsers commute: running content, style and
    caption in this order gives what [get] gives. *)
Theorem get_order_irrelevant (self : Box) (source : str) :
  get self source
  = (b <- __get_content self source ;;
     b <- __get_style b source ;;
     __get_caption b source).
Proof.
  rewrite get_eq, get_content_eq. cbn [bind].
  rewrite get_style_eq. cbn [bind]. rewrite get_caption_eq. f_equal.
  rewrite (after_comm __rectn__ __recap__ source content_of caption_of)
    by (intros; symmetry; apply caption_content_comm).
  rewrite (after_comm __rectn__ __restl__ source content_of style_of)
    by (intros; symmetry; apply style_content_comm).
  reflexivity.
Qed.

(** ** The shape of a rendered box *)

Lemma caption_tag_start b pos :
  yattag.start_tag (caption_tag b pos)
  = yattag.start_tag
      {| yattag.name := py "div";
         yattag.tag_attrs :=
           (py "class", py "box caption") :: style_attr (cap_options b);
         yattag.position := 0 |}.
Proof.
  unfold caption_tag, style_attr.
  destruct (cap_options b) as [[|x t]|]; reflexivity.
Qed.

Lemma put_caption_element (b : Box) (d : yattag.Doc) :
  exists extra,
    concat extra = caption_element b /\
    put_caption b d =
    Ok (tt, {| yattag.doc_result := yattag.doc_result d ++ extra;
               yattag.current_tag := yattag.current_tag d |}).
Proof.
  unfold caption_element.
  destruct (truthy (cap b) || truthy (cap_type b)) eqn:Hg.
  - destruct (caption_txt_ok b Hg) as [txt Ht].
    destruct (put_caption_emits b d txt Hg Ht) as (e & He & Hp).
    injection He as <-. rewrite Ht.
    eexists. split; [|exact Hp].
    cbn [concat]. rewrite app_nil_r, caption_tag_start. reflexivity.
  - exists []. split; [reflexivity|].
    rewrite (put_caption_silent b d Hg), app_nil_r. now destruct d.
Qed.

Ltac eval_attrs :=
  repeat match goal with
         | |- context [yattag.update ?a ?b] =>
             let r := eval cbv in (yattag.update a b) in
             change (yattag.update a b) with r
         | |- context [yattag.attributes ?a] =>
             let r := eval cbv in (yattag.attributes a) in
             change (yattag.attributes a) with r
         end.

(** X9.  The fragment of a box with a content: a [div] of class [box]
    with the style, around a [div] of class [box content] with the
    content options and the escaped content, followed by the caption
    element when there is one. *)
Theorem to_html_shape (b : Box) (x : str) :
  ctn b = Some x ->
  to_html b
  = Ok (element ((py "markdown", py "1") :: (py "class", py "box")
                 :: style_attr (style b))
          (element ((py "class", py "box content")
                    :: style_attr (ctn_options b))
                   (escape_text x)
           ++ caption_element b)).
Proof.
  intros Hc. unfold to_html, yattag.with_tag, yattag.bindM, yattag.when.
  rewrite Hc.
  destruct (truthy (style b)) eqn:Hs;
    [destruct (truthy_as_str _ Hs) as (c & t & Hv & He); rewrite Hv|
     assert (Hv : style_attr (style b) = [])
       by (destruct (style b) as [[|? ?]|]; [reflexivity|discriminate|reflexivity]);
     rewrite Hv];
    (destruct (truthy (ctn_options b)) eqn:Ho;
     [destruct (truthy_as_str _ Ho) as (c' & t' & Hv' & He'); rewrite Hv'|
      assert (Hv' : style_attr (ctn_options b) = [])
        by (destruct (ctn_options b) as [[|? ?]|];
            [reflexivity|discriminate|reflexivity]);
      rewrite Hv']);
    cbn [as_str yattag.lift yattag.attr yattag.ret yattag.text
         yattag.html_escape yattag.current_tag yattag.doc_result
         yattag.new_doc hd];
    match goal with
    | |- context [put_caption b ?d] =>
        destruct (put_caption_element b d) as (extra & <- & ->)
    end;
    unfold element, yattag.getvalue;
    cbn [yattag.doc_result yattag.current_tag hd yattag.position app
         yattag.set_nth length style_attr yattag.name yattag.tag_attrs];
    eval_attrs;
    unfold yattag.start_tag, yattag.end_tag;
    cbn [yattag.name yattag.tag_attrs];
    f_equal;
    repeat (rewrite concat_app || rewrite concat_cons);
    cbn [concat]; rewrite ?app_nil_r; repeat rewrite <- app_assoc;
    reflexivity.
Qed.

(** ** Boxes replaced in order *)

Lemma rebox_here body rest :
  contains (py "$endbox") (body ++ py "$endbo") = false ->
  re.match_here __rebox__ (py "$box" ++ body ++ py "$endbox" ++ rest)
  = Some (rest, [(1, body)]).
Proof.
  intros H. unfold re.match_here, __rebox__.
  change (re.rmatch (re.Seq (re.Str (py "$box")) ?r2) (py "$box" ++ ?s) ?c0 ?k)
    with (re.rmatch r2 s c0 k).
  apply (lazy_until (str * re.caps) 1 (Some "box"%string) (py "$endbox")
           body rest); [|reflexivity].
  now apply first_occurrence.
Qed.

Lemma render_match_body m body :
  re.m_re m = __rebox__ -> re.m_caps m = [(1, body)] ->
  render_match m = render_body body.
Proof.
  intros Hr Hc. unfold render_match, render_body, re.group.
  rewrite Hr, Hc. reflexivity.
Qed.

Lemma clean_body_inv body :
  clean_body body = true ->
  exists h, render_body body = Ok ("<"%char :: h)
            /\ ~ In "$"%char ("<"%char :: h) /\ ~ In "\"%char ("<"%char :: h).
Proof.
  unfold clean_body.
  destruct (render_body body) as [html|] eqn:E; [|discriminate].
  intros H. apply negb_true_iff in H.
  assert (N : forall c, In c html ->
                        Ascii.eqb c "$" || Ascii.eqb c "\" = false).
  { intros c Hc. destruct (_ || _) eqn:F; [|reflexivity].
    assert (X : existsb (fun c => Ascii.eqb c "$" || Ascii.eqb c "\") html
                = true) by (apply existsb_exists; eauto).
    congruence. }
  assert (S : exists h, html = "<"%char :: h).
  { unfold render_body in E.
    destruct (get _ body) as [b|]; [|discriminate]. cbn [bind] in E.
    now apply to_html_starts in E. }
  destruct S as [h ->]. exists h. split; [reflexivity|].
  split; intros Hc; apply N in Hc;
    now rewrite Ascii.eqb_refl, ?orb_true_r in Hc.
Qed.

Lemma no_box_no_match post :
  contains (py "$box") post = false ->
  forall pre t, post = pre ++ t -> re.match_here __rebox__ t = None.
Proof.
  intros H pre t ->. apply (Seq_Str_fails (str * re.caps)).
  destruct (strip_prefix (py "$box") t) as [u|] eqn:E; [|reflexivity].
  apply strip_prefix_Some in E. subst.
  now destruct (contains_false _ _ H pre u).
Qed.

Lemma parse_segments segs post :
  forallb plain_segment segs = true ->
  contains (py "$box") post = false ->
  forall w p d,
    settled d ->
    fold_left (fun acc m => parsed_source <- acc ;; parse_step parsed_source m)
              (re.finditer_from __rebox__ w p 0 (boxes_doc segs post))
              (Ok (d ++ boxes_doc segs post))
    = Ok (d ++ rendered_doc segs post).
Proof.
  intros Hs Hp. induction segs as [|[pre body] segs IH]; intros w p d Hd.
  - unfold boxes_doc, rendered_doc. cbn [flat_map app].
    rewrite finditer_from_nil by now apply no_box_no_match.
    reflexivity.
  - cbn [forallb] in Hs. apply andb_true_iff in Hs. destruct Hs as [H1 Hs].
    unfold plain_segment in H1. cbn [fst snd] in H1.
    apply andb_true_iff in H1. destruct H1 as [H1 Hc].
    apply andb_true_iff in H1. destruct H1 as [Hb He].
    apply negb_true_iff in Hb, He.
    specialize (IH Hs).
    destruct (clean_body_inv _ Hc) as (h & Hr & Hdol & Hbs).
    set (rest := boxes_doc segs post) in *.
    assert (E : boxes_doc ((pre, body) :: segs) post
                = pre ++ (py "$box" ++ body ++ py "$endbox") ++ rest).
    { unfold boxes_doc, rest. cbn [flat_map fst snd].
      now rewrite <- !app_assoc. }
    assert (Hf : fails_in __rebox__ pre
                   ((py "$box" ++ body ++ py "$endbox") ++ rest)).
    { rewrite <- !app_assoc. now apply (keyword_fails (py "$box")). }
    assert (Hm : re.match_here __rebox__
                   ((py "$box" ++ body ++ py "$endbox") ++ rest)
                 = Some (rest, [(1, body)])).
    { rewrite <- !app_assoc. now apply rebox_here. }
    assert (Hne : py "$box" ++ body ++ py "$endbox" <> [])
      by (intros X; discriminate X).
    rewrite E.
    destruct (finditer_from_first __rebox__ w p pre _ rest _ Hne Hf Hm)
      as (mo & p' & Hre & Hcaps & ->).
    cbn [fold_left bind].
    rewrite parse_step_render, (render_match_body mo body Hre Hcaps), Hr.
    cbn [bind].
    rewrite app_assoc.
    rewrite (sub1_first __rebox__ _ (d ++ pre) _ rest [(1, body)] Hbs);
      [| |exact Hm].
    + rewrite app_assoc, IH.
      * unfold rendered_doc. cbn [flat_map fst snd]. rewrite Hr.
        f_equal. now rewrite <- !app_assoc.
      * rewrite <- app_assoc.
        apply (settled_step d pre body rest h); auto.
        rewrite <- !app_assoc in Hf. exact Hf.
    + apply fails_in_app; [apply Hd|exact Hf].
Qed.

(** X11.  On a document made of texts and boxes in turn, where no text
    holds a [$box] of its own, no body an [$endbox], and every fragment
    is free of [$] and of backslashes, [parse] returns the document with
    every box replaced by its fragment, in order, and every text as it
    was. *)
Theorem parse_in_order (segs : list (str * str)) (post : str) :
  forallb plain_segment segs = true ->
  contains (py "$box") post = false ->
  parse (boxes_doc segs post) = Ok (rendered_doc segs post).
Proof.
  intros Hs Hp. unfold parse, re.finditer.
  apply (parse_segments segs post Hs Hp _ 0 [] settled_nil).
Qed.

(** ** A box that cannot be rendered *)

Lemma fold_raise l e :
  fold_left (fun acc m => parsed_source <- acc ;; parse_step parsed_source m)
            l (Raise e) = Raise e.
Proof. induction l; simpl; auto. Qed.

Lemma fold_step_raises l m acc :
  In m l ->
  (forall w, exists e, parse_step w m = Raise e) ->
  exists e,
    fold_left (fun acc m => parsed_source <- acc ;; parse_step parsed_source m)
              l acc = Raise e.
Proof.
  intros Hin Hm. revert acc. induction l as [|a l IH]; intros acc.
  - destruct Hin.
  - cbn [fold_left]. destruct Hin as [->|Hin]; [|now apply IH].
    destruct acc as [w|e]; cbn [bind].
    + destruct (Hm w) as [e ->]. exists e. apply fold_raise.
    + exists e. apply fold_raise.
Qed.

Lemma no_content_ctn default body :
  re.search __rectn__ body = None ->
  exists b, get (Box_init default) body = Ok b /\ ctn b = None.
Proof.
  intros H. eexists. split; [apply get_eq|].
  rewrite after_None by assumption.
  rewrite (after_fields ctn), (after_fields ctn); auto.
  - intros; apply style_of_fields.
  - intros; apply caption_of_fields.
Qed.

(** X13.  When one of the boxes of the document has no content field,
    [parse] raises, whatever the other boxes are. *)
Theorem parse_aborts_without_content (source body : str) (m : re.Match) :
  In m (re.finditer __rebox__ source) ->
  re.group m "box" = Ok (Some body) ->
  re.search __rectn__ body = None ->
  exists e, parse source = Raise e.
Proof.
  intros Hin Hg Hs. unfold parse. apply (fold_step_raises _ m); auto.
  intros w. exists TypeError. unfold parse_step. rewrite Hg. cbn [bind as_str].
  destruct (no_content_ctn (py "box") body Hs) as (b & -> & Hc). cbn [bind].
  now rewrite (to_html_None b Hc).
Qed.

(** An instance. *)
Lemma parse_aborts_without_content_witness :
  exists e,
    parse (py "$box$content{a}$endbox then $box$caption{only}$endbox")
    = Raise e.
Proof.
  apply (parse_aborts_without_content _ (py "$caption{only}")
           {| re.m_re := __rebox__;
              re.m_string :=
                py "$box$content{a}$endbox then $box$caption{only}$endbox";
              re.m_start := 28; re.m_end := 53;
              re.m_caps := [(1, py "$caption{only}")] |}).
  - vm_compute. right. left. reflexivity.
  - reflexivity.
  - reflexivity.
Defined.

(** ** Running the pass again *)

Lemma search_from_None_inv r w p s :
  re.search_from r w p s = None ->
  forall pre t, s = pre ++ t -> re.match_here r t = None.
Proof.
  revert p. induction s as [|a s IH]; intros p H pre t E.
  - symmetry in E. apply app_eq_nil in E. destruct E as [_ ->].
    simpl in H. now destruct (re.match_here r []) as [[? ?]|].
  - cbn [re.search_from] in H.
    destruct (re.match_here r (a :: s)) as [[? ?]|] eqn:M; [discriminate|].
    destruct pre as [|x pre]; simpl in E.
    + now subst t.
    + injection E as _ E. now apply (IH _ H pre t).
Qed.

(** X14.  When every fragment is free of [$] and of backslashes, a
    second pass over the output of [parse] returns it unchanged. *)
Theorem parse_twice (source : str) :
  forallb fragment_clean (re.finditer __rebox__ source) = true ->
  exists out, parse source = Ok out /\ parse out = Ok out.
Proof.
  intros H.
  destruct (parse_loop (length source) source source 0 [] (le_n _)
              settled_nil H) as (out & Ho & Hn).
  exists out. split; [exact Ho|].
  unfold parse, re.finditer.
  rewrite finditer_from_nil; [reflexivity|].
  now apply (search_from_None_inv __rebox__ out 0 out).
Qed.

(** An instance. *)
Lemma parse_twice_witness :
  exists out,
    parse (py "Text $box$content{Hi}$endbox more") = Ok out
    /\ parse out = Ok out.
Proof. apply parse_twice. vm_compute. reflexivity. Defined.

(** ** Box bodies *)

(** [.*?] stops at the first suffix on which the continuation succeeds. *)
Lemma lazy_any_first_inv R (k : re.cont R) fuel s c x :
  re.repeat_lazy (re.rmatch (R:=R) re.Any) fuel k s c = Some x ->
  exists pre s',
    s = pre ++ s' /\ k s' c = Some x /\
    forall p1 y p2, pre = p1 ++ y :: p2 -> k (y :: p2 ++ s') c = None.
Proof.
  revert s. induction fuel as [|f IH]; intros s; simpl.
  - intros H. exists [], s. repeat split; auto.
    intros [|] ? ? ?; discriminate.
  - unfold re.orelse. destruct (k s c) as [y|] eqn:E.
    + intros [= ->]. exists [], s. repeat split; auto.
      intros [|] ? ? ?; discriminate.
    + destruct s as [|a t]; [discriminate|].
      unfold re.progress. destruct (_ <? _); [|discriminate].
      intros H. destruct (IH _ H) as (pre & s' & -> & Hk & Hmin).
      exists (a :: pre), s'. repeat split; auto.
      intros [|z p1] y p2 Ep; simpl in Ep; injection Ep as <- Ep.
      * subst. exact E.
      * now apply (Hmin p1 y p2).
Qed.

Lemma rebox_here_first t rest c :
  re.match_here __rebox__ t = Some (rest, c) ->
  exists body,
    t = py "$box" ++ body ++ py "$endbox" ++ rest /\ c = [(1, body)] /\
    forall p1 y p2,
      body = p1 ++ y :: p2 ->
      strip_prefix (py "$endbox") (y :: p2 ++ py "$endbox" ++ rest) = None.
Proof.
  unfold re.match_here, __rebox__. cbn [re.rmatch].
  destruct (strip_prefix (py "$box") t) as [t1|] eqn:E; [|discriminate].
  apply strip_prefix_Some in E. subst t. intros H.
  apply lazy_any_first_inv in H. destruct H as (body & s' & -> & H & Hmin).
  destruct (strip_prefix (py "$endbox") s') as [u|] eqn:E; [|discriminate].
  apply strip_prefix_Some in E. subst s'. injection H as -> <-.
  exists body. split; [reflexivity|].
  split; [now rewrite firstn_consumed|].
  intros p1 y p2 Eb. specialize (Hmin p1 y p2 Eb). cbv beta in Hmin.
  now destruct (strip_prefix (py "$endbox") (y :: p2 ++ py "$endbox" ++ rest)).
Qed.

Lemma finditer_from_In r w p k s m :
  In m (re.finditer_from r w p k s) ->
  re.m_re m = r /\
  exists t rest, re.match_here r t = Some (rest, re.m_caps m).
Proof.
  revert p k. induction s as [|a s IH]; intros p k.
  - destruct k; simpl; [|tauto].
    destruct (re.match_here r []) as [[s' c]|] eqn:E; [|intros []].
    intros [<-|[]]. split; [reflexivity|]. eauto.
  - destruct k as [|k]; cbn [re.finditer_from]; [|apply IH].
    destruct (re.match_here r (a :: s)) as [[s' c]|] eqn:E; [|apply IH].
    intros [<-|H]; [|now apply IH in H].
    split; [reflexivity|]. eauto.
Qed.

Lemma contains_true w s :
  contains w s = true -> exists pre t, s = pre ++ w ++ t.
Proof.
  induction s as [|a s IH]; simpl; intros H.
  - rewrite orb_false_r in H. unfold startswith in H.
    destruct (strip_prefix w []) as [u|] eqn:E; [|discriminate].
    apply strip_prefix_Some in E. exists [], u. exact E.
  - apply orb_true_iff in H. destruct H as [H|H].
    + unfold startswith in H.
      destruct (strip_prefix w (a :: s)) as [u|] eqn:E; [|discriminate].
      apply strip_prefix_Some in E. exists [], u. exact E.
    + destruct (IH H) as (pre & t & ->). now exists (a :: pre), t.
Qed.

(** X15.  The body that [parse] hands to [Box.get] never holds an
    [$endbox]: a box ends at the first [$endbox] after its [$box], so
    boxes do not nest. *)
Theorem box_body_without_endbox (source body : str) (m : re.Match) :
  In m (re.finditer __rebox__ source) ->
  re.group m "box" = Ok (Some body) ->
  contains (py "$endbox") body = false.
Proof.
  intros Hin Hg. apply finditer_from_In in Hin.
  destruct Hin as (Hre & t & rest & Hm).
  apply rebox_here_first in Hm. destruct Hm as (b & _ & Hc & Hmin).
  unfold re.group in Hg. rewrite Hre, Hc in Hg. injection Hg as <-.
  destruct (contains (py "$endbox") b) eqn:E; [exfalso|reflexivity].
  apply contains_true in E. destruct E as (pre & u & ->).
  specialize (Hmin pre "$"%char (py "endbox" ++ u) eq_refl).
  change ("$"%char :: (py "endbox" ++ u) ++ py "$endbox" ++ rest)
    with (py "$endbox" ++ (u ++ py "$endbox" ++ rest)) in Hmin.
  now rewrite strip_prefix_app in Hmin.
Qed.

(** An instance. *)
Lemma box_body_without_endbox_witness :
  contains (py "$endbox") (py "$content{a $box$content{b}") = false.
Proof.
  apply (box_body_without_endbox
           (py "$box$content{a $box$content{b}$endbox c}$endbox")
           (py "$content{a $box$content{b}")
           {| re.m_re := __rebox__;
              re.m_string :=
                py "$box$content{a $box$content{b}$endbox c}$endbox";
              re.m_start := 0; re.m_end := 37;
              re.m_caps := [(1, py "$content{a $box$content{b}")] |}).
  - vm_compute. left. reflexivity.
  - reflexivity.
Defined.

(** An instance. *)
Lemma get_documented_body_witness :
  get (Box_init (py "box"))
    (py " " ++ py "$style[" ++ py "font-variant:small-caps;" ++ py "]" ++ py " "
     ++ py "$caption" ++ qual "(" (Some (py "Fig.")) ")"
     ++ qual "[" (Some (py "padding:0 2%;")) "]"
     ++ qual "{" (Some (py " A plot ")) "}"
     ++ py " "
     ++ py "$content" ++ qual "(" (Some (py "figure")) ")" ++ qual "[" None "]"
     ++ "{"%char :: py " plot.png " ++ "}"%char :: py " ")
  = Ok {| number := 0;
          ctn_type := py "figure";
          style := Some (py "font-variant:small-caps;");
          ctn_options := None;
          cap_options := Some (py "padding:0 2%;");
          cap_type := Some (py "Fig.");
          ctn := Some (py "plot.png");
          cap := Some (py "A plot") |}.
Proof.
  apply (get_documented_body (py "box") (py " ")
           (py "font-variant:small-caps;") (py " ") (py " ")
           (py " plot.png ") (py " ")
           (Some (py "Fig.")) (Some (py "padding:0 2%;"))
           (Some (py " A plot ")) (Some (py "figure")) None);
    simpl; try reflexivity; intuition discriminate.
Defined.

(** An instance. *)
Lemma to_html_shape_witness :
  to_html (set_ctn (Box_init (py "box")) (Some (py "a < b")))
  = Ok (element [(py "markdown", py "1"); (py "class", py "box")]
          (element [(py "class", py "box content")] (py "a &lt; b"))).
Proof.
  rewrite (to_html_shape (set_ctn (Box_init (py "box")) (Some (py "a < b")))
             (py "a < b") eq_refl).
  reflexivity.
Defined.

(** An instance. *)
Lemma parse_in_order_witness :
  parse (boxes_doc [(py "One ", py "$content{A}");
                    (py " two ", py "$caption(Fig.){c}$content{B}")]
                   (py " three"))
  = Ok (rendered_doc [(py "One ", py "$content{A}");
                      (py " two ", py "$caption(Fig.){c}$content{B}")]
                     (py " three")).
Proof. apply parse_in_order; vm_compute; reflexivity. Defined.

(** ** Further edge behaviour *)

(** X8.  [get] never changes the number of the box. *)
Theorem get_keeps_number (self : Box) (source : str) :
  exists b, get self source = Ok b /\ number b = number self.
Proof.
  eexists. split; [apply get_eq|].
  rewrite (after_fields number), (after_fields number),
    (after_fields number); auto.
  - intros; apply style_of_fields.
  - intros; apply caption_of_fields.
  - intros; apply content_of_fields.
Qed.

(** X10.  [to_html] returns a fragment exactly when the content of
    the box is not [None]. *)
Theorem to_html_iff_content (b : Box) :
  (exists h, to_html b = Ok h) <-> ctn b <> None.
Proof.
  split.
  - intros [h H] E. rewrite (to_html_None b E) in H. discriminate.
  - destruct (ctn b) as [x|] eqn:E; [|congruence].
    intros _. now apply (to_html_Some b x).
Qed.

(** An instance. *)
Lemma to_html_iff_content_witness :
  exists h, to_html (set_ctn (Box_init (py "box")) (Some [])) = Ok h.
Proof.
  apply (proj2 (to_html_iff_content (set_ctn (Box_init (py "box")) (Some [])))).
  discriminate.
Defined.

(** X12.  A document without any [$endbox] is returned unchanged, even
    when it holds a [$box]. *)
Theorem parse_unterminated_unchanged (d : str) :
  contains (py "$endbox") d = false -> parse d = Ok d.
Proof.
  intros H. unfold parse, re.finditer.
  rewrite finditer_from_nil; [reflexivity|].
  intros pre t ->.
  destruct (re.match_here __rebox__ t) as [[rest c]|] eqn:E; [|reflexivity].
  apply rebox_here_inv in E. destruct E as (body & -> & _).
  exfalso. apply (contains_false _ _ H (pre ++ py "$box" ++ body) rest).
  now rewrite <- !app_assoc.
Qed.

(** An instance. *)
Lemma parse_unterminated_unchanged_witness :
  parse (py "Text $box$content{Hi} and no end") = Ok (py "Text $box$content{Hi} and no end").
Proof. apply parse_unterminated_unchanged. reflexivity. Defined.

(** ** Numbers as text *)

Lemma string_of_uint_digits d c :
  In c (list_ascii_of_string (NilEmpty.string_of_uint d)) ->
  sign_or_digit c = true.
Proof.
  induction d; simpl; try tauto;
    (intros [<-|H]; [reflexivity|now apply IHd]).
Qed.

Lemma str_of_int_chars n c :
  In c (str_of_int n) -> sign_or_digit c = true.
Proof.
  unfold str_of_int, py.
  destruct (Z.to_int n) as [d|d]; simpl.
  - destruct d; simpl; try (intros [<-|[]]; reflexivity);
      (intros [<-|H]; [reflexivity|now apply string_of_uint_digits in H]).
  - intros [<-|H]; [reflexivity|].
    destruct d; simpl in H; try (destruct H as [<-|[]]; reflexivity);
      (destruct H as [<-|H]; [reflexivity|now apply string_of_uint_digits in H]).
Qed.

Lemma to_int_not_nil n : Z.to_int n <> Decimal.Pos Decimal.Nil
                         /\ Z.to_int n <> Decimal.Neg Decimal.Nil.
Proof.
  destruct n as [|p|p]; simpl; split; try discriminate;
    intros [= H]; now apply (DecimalPos.Unsigned.to_uint_nonnil p).
Qed.

Lemma py_inj (a b : string) : py a = py b -> a = b.
Proof.
  unfold py. intros H.
  rewrite <- (string_of_list_ascii_of_string a),
    <- (string_of_list_ascii_of_string b). now rewrite H.
Qed.

Lemma str_of_int_inj n1 n2 : str_of_int n1 = str_of_int n2 -> n1 = n2.
Proof.
  unfold str_of_int. intros H. apply py_inj in H.
  apply DecimalZ.to_int_inj.
  destruct (to_int_not_nil n1) as [A1 B1], (to_int_not_nil n2) as [A2 B2].
  pose proof (NilZero.isi _ A1 B1) as E1.
  pose proof (NilZero.isi _ A2 B2) as E2.
  rewrite H in E1. congruence.
Qed.

(** Two texts that agree after a first blank agree before it. *)
Lemma before_blank (a b x y : str) (sp : ascii) :
  ~ In sp a -> ~ In sp b ->
  a ++ sp :: x = b ++ sp :: y -> a = b.
Proof.
  revert b. induction a as [|c a IH]; intros [|d b] Ha Hb E; simpl in E.
  - reflexivity.
  - injection E as -> _. exfalso. apply Hb. now left.
  - injection E as -> _. exfalso. apply Ha. now left.
  - injection E as -> E. f_equal. apply IH; auto.
    + intros H. apply Ha. now right.
    + intros H. apply Hb. now right.
Qed.

Lemma str_of_int_no_blank n : ~ In " "%char (str_of_int n).
Proof. intros H. apply str_of_int_chars in H. discriminate. Qed.

(** X16.  Headers with different numbers have different class names,
    different data tags and different css, whatever their theme data
    are. *)
Theorem header_numbers_distinct (h1 h2 : header.Header) (oc1 oc2 al : bool) :
  header.number h1 <> header.number h2 ->
  header.class_name (header.number h1) <> header.class_name (header.number h2)
  /\ header.data_tag (header.number h1) <> header.data_tag (header.number h2)
  /\ header.get_css h1 oc1 al <> header.get_css h2 oc2 al.
Proof.
  intros Hn. repeat split.
  - unfold header.class_name. intros E. apply app_inv_head in E.
    now apply str_of_int_inj in E.
  - unfold header.data_tag. intros E. apply app_inv_head in E.
    now apply str_of_int_inj in E.
  - unfold header.get_css. intros E.
    assert (E' : str_of_int (header.number h1)
                 ++ " "%char :: "{"%char :: header.nl :: py "  padding:0;"
                 ++ header.data_get_css h1 oc1 ++ header.nl :: py "}" ++ [header.nl]
                 = str_of_int (header.number h2)
                 ++ " "%char :: "{"%char :: header.nl :: py "  padding:0;"
                 ++ header.data_get_css h2 oc2 ++ header.nl :: py "}" ++ [header.nl]).
    { destruct al; injection E as E; rewrite <- !app_assoc in E; exact E. }
    apply before_blank in E'; auto using str_of_int_no_blank.
    now apply str_of_int_inj in E'.
Qed.

(** An instance. *)
Lemma header_numbers_distinct_witness :
  header.class_name 1 <> header.class_name 2.
Proof.
  apply (header_numbers_distinct
           {| header.number := 1; header.data_get_css := fun _ => [];
              header.data_get_options := [] |}
           {| header.number := 2; header.data_get_css := fun _ => [];
              header.data_get_options := [] |} false false false).
  simpl. discriminate.
Defined.
